(** * godep: dependency rules for a tree of Go source files

    A shallow embedding of [godep.go].  The program keeps three global
    variables ([files], [packages], [roots]), two kinds of heap objects
    reached through the [Package] struct (a [*StringVector] and a
    [map[string]string]), and writes to standard output with the [fmt]
    print functions.  All of this is kept explicit in a [State] record that
    is threaded through a small monad.

    Collaborators that are not part of [godep.go] (the option parser, the
    Go parser, [path.Clean], the directory walk, and the order in which the
    runtime enumerates a map in a [range] statement) are gathered in the
    record [Env]. *)

From Stdlib Require Import Strings.Ascii.
From stdpp Require Import gmap strings list fin_maps.

Local Open Scope string_scope.
Local Open Scope list_scope.

Set Warnings "-clear-no-such-hyp".

(** ** Library functions of package [strings] used by the program *)

Module strings.

(** [strings.Split(s, sep, -1)] for a separator of one byte: all the
      substrings of [s] between occurrences of [sep]. *)
Fixpoint Split (s : string) (sep : ascii) : list string :=
    match s with
    | EmptyString => [EmptyString]
    | String c s' =>
        if decide (c = sep) then EmptyString :: Split s' sep
        else match Split s' sep with
             | p :: ps => String c p :: ps
             | [] => [String c EmptyString]
             end
    end.

Fixpoint inCutset (c : ascii) (cutset : string) : bool :=
    match cutset with
    | EmptyString => false
    | String d cutset' => if decide (c = d) then true else inCutset c cutset'
    end.

Fixpoint TrimLeft (s cutset : string) : string :=
    match s with
    | EmptyString => EmptyString
    | String c s' => if inCutset c cutset then TrimLeft s' cutset else s
    end.

Definition TrimRight (s cutset : string) : string :=
    String.rev (TrimLeft (String.rev s) cutset).

(** [strings.Trim(s, cutset)]: [s] without the leading and trailing bytes
      that occur in [cutset]. *)
Definition Trim (s cutset : string) : string :=
    TrimRight (TrimLeft s cutset) cutset.

End strings.

(** ** Output: one event per call of a [fmt] print function *)

Inductive Event :=
| Print (a : string)
| Printf (format : string) (a : list string).

Global Instance Event_eq_dec : EqDecision Event.
Proof. solve_decision. Defined.

(** [fmt.Sprintf] restricted to the verb [%s], the only one the program
    uses; every other byte of the format is copied. *)
Fixpoint Sprintf (format : string) (a : list string) : string :=
  match format with
  | String "%"%char (String "s"%char rest) =>
      match a with
      | x :: a' => x +:+ Sprintf rest a'
      | [] => "%!s(MISSING)" +:+ Sprintf rest []
      end
  | String c rest => String c (Sprintf rest a)
  | EmptyString => EmptyString
  end.

Definition render (e : Event) : string :=
  match e with
  | Print a => a
  | Printf format a => Sprintf format a
  end.

(** The text that a sequence of print calls leaves on the stream. *)
Definition text (out : list Event) : string :=
  foldr (fun e acc => render e +:+ acc) EmptyString out.

(** ** The syntax tree, as far as [ast.Walk] and the two visitors see it

    A node has a kind and children.  The visitors tell apart import specs
    (by their [Path.Value]) and function declarations (by their
    [Name.Name]); every other node is an [OtherNode]. *)

Inductive NodeKind :=
| ImportSpec (Path_Value : string)
| FuncDecl (Name_Name : string)
| OtherNode.

Unset Elimination Schemes.
Inductive Node := mkNode (kind : NodeKind) (children : list Node).
Set Elimination Schemes.

Definition kind (n : Node) : NodeKind := match n with mkNode k _ => k end.

(** [*ast.File]: the package clause [Name.Name] and the declarations below
    the file node. *)
Record File := mkFile { Name_Name : string; Decls : list Node }.

Inductive Mode := ImportsOnly | FullParse.

(** What [parser.ParseFile] hands back, a [*ast.File] and an error value:
    the tree and no error; for a source with syntax errors the partial tree
    that the parser had built, and the error; for a source that cannot be
    read no tree at all, and the error. *)
Inductive ParseResult :=
| Parsed (tree : File)
| Partial (tree : File) (e : string)
| Unread (e : string).

(** The two results of the call; [None] is Go's [nil]. *)
Definition file (r : ParseResult) : option File :=
  match r with
  | Parsed tree | Partial tree _ => Some tree
  | Unread _ => None
  end.

Definition err (r : ParseResult) : option string :=
  match r with
  | Parsed _ => None
  | Partial _ e | Unread e => Some e
  end.

(** ** Heap objects and the [Package] struct *)

(** Addresses of heap objects; [0] is the nil pointer and the nil map. *)
Abbreviation loc := nat (only parsing).

Module Package.
Record t := mk {
    files : loc;      (* files    *StringVector      *)
    packages : loc;   (* packages map[string]string  *)
    hasMain : bool
  }.
End Package.
Abbreviation Package := Package.t.

(** The zero value of the struct, which indexing [packages] yields for a
    name that is not a key. *)
Definition zeroPackage : Package := Package.mk 0 0 false.

(** ** Everything the program takes from outside [godep.go] *)

Record Env := mkEnv {
  showVersion : bool;                 (* *showVersion after opts.Parse() *)
  showNeeded : bool;                  (* *showNeeded  after opts.Parse() *)
  Args : list string;                 (* opts.Args *)
  ShowVersion_out : list Event;       (* what ShowVersion() prints *)
  Walk_dot : list string;             (* names pushed onto files by
                                         path.Walk(".", GoFileFinder{}, nil) *)
  ParseFile : string -> Mode -> ParseResult;
  Clean : string -> string;           (* path.Clean *)
  (* the order in which the n-th range statement executed by the run
     enumerates the map it is given *)
  range_order : forall V : Type, nat -> gmap string V -> list (string * V)
}.

(** A [range] over a map yields every entry exactly once, in an order the
    language leaves open. *)
Definition range_ok (env : Env) : Prop :=
  forall (V : Type) (n : nat) (m : gmap string V),
    range_order env V n m ≡ₚ map_to_list m.

(** ** Program state *)

Record State := mkState {
  files : list string;                       (* var files StringVector *)
  roots : gmap string string;                (* var roots *)
  packages : gmap string Package;            (* var packages *)
  vectors : gmap loc (list string);          (* every StringVector allocated *)
  maps : gmap loc (gmap string string);      (* every map[string]string allocated *)
  next : loc;                                (* next unused address *)
  stdout : list Event;
  stderr : list Event;
  tick : nat                                 (* range statements executed so far *)
}.

(** The state in which [main] starts: empty globals, empty heap (address 0
    is never allocated), nothing printed. *)
Definition init : State :=
  mkState [] ∅ ∅ ∅ ∅ 1 [] [] 0.

Definition set_files (s : State) (x : list string) : State :=
  mkState x (roots s) (packages s) (vectors s) (maps s) (next s)
          (stdout s) (stderr s) (tick s).
Definition set_roots (s : State) (x : gmap string string) : State :=
  mkState (files s) x (packages s) (vectors s) (maps s) (next s)
          (stdout s) (stderr s) (tick s).
Definition set_packages (s : State) (x : gmap string Package) : State :=
  mkState (files s) (roots s) x (vectors s) (maps s) (next s)
          (stdout s) (stderr s) (tick s).
Definition set_vectors (s : State) (x : gmap loc (list string)) : State :=
  mkState (files s) (roots s) (packages s) x (maps s) (next s)
          (stdout s) (stderr s) (tick s).
Definition set_maps (s : State) (x : gmap loc (gmap string string)) : State :=
  mkState (files s) (roots s) (packages s) (vectors s) x (next s)
          (stdout s) (stderr s) (tick s).
Definition set_next (s : State) (x : loc) : State :=
  mkState (files s) (roots s) (packages s) (vectors s) (maps s) x
          (stdout s) (stderr s) (tick s).
Definition set_stdout (s : State) (x : list Event) : State :=
  mkState (files s) (roots s) (packages s) (vectors s) (maps s) (next s)
          x (stderr s) (tick s).
Definition set_stderr (s : State) (x : list Event) : State :=
  mkState (files s) (roots s) (packages s) (vectors s) (maps s) (next s)
          (stdout s) x (tick s).
Definition set_tick (s : State) (x : nat) : State :=
  mkState (files s) (roots s) (packages s) (vectors s) (maps s) (next s)
          (stdout s) (stderr s) x.

(** ** The monad: state, [os.Exit] and run-time panics *)

Inductive Res (A : Type) :=
| Done (a : A) (s : State)
| Exit (code : Z) (s : State)
| Panic (s : State).
Arguments Done {A} a s.
Arguments Exit {A} code s.
Arguments Panic {A} s.

Definition M (A : Type) : Type := State -> Res A.

Definition ret {A} (a : A) : M A := fun s => Done a s.

Definition bind {A B} (m : M A) (f : A -> M B) : M B :=
  fun s =>
    match m s with
    | Done a s' => f a s'
    | Exit c s' => Exit c s'
    | Panic s' => Panic s'
    end.

Declare Scope go_scope.
Delimit Scope go_scope with go.
Notation "x <- m ; k" := (bind m (fun x => k))
  (at level 20, m at level 100, k at level 200, only parsing) : go_scope.
Notation "m ;; k" := (bind m (fun _ => k))
  (at level 100, k at level 200, only parsing, right associativity) : go_scope.
Local Open Scope go_scope.

Definition gets {A} (f : State -> A) : M A := fun s => Done (f s) s.
Definition modify (f : State -> State) : M unit := fun s => Done tt (f s).
Definition panic {A} : M A := fun s => Panic s.

(** A [for] loop over a slice whose body updates the local variables [b]. *)
Fixpoint foldM {A B} (body : B -> A -> M B) (b : B) (l : list A) : M B :=
  match l with
  | [] => ret b
  | x :: l' => b' <- body b x; foldM body b' l'
  end.

Definition for_ {A} (l : list A) (body : A -> M unit) : M unit :=
  foldM (fun _ x => body x) tt l.

Definition when (c : bool) (m : M unit) : M unit := if c then m else ret tt.

(** ** The program *)

(** The line feed that the Go source writes as backslash-n, and the cutset
    of the call of [strings.Trim]: one double-quote byte. *)
Definition LF : string := String "010"%char EmptyString.
Definition quote : string := String "034"%char EmptyString.

Section Godep.

Context (env : Env).

(** *** Primitive statements *)

Definition os_Exit {A} (code : Z) : M A := fun s => Exit code s.

Definition fmt_Print (a : string) : M unit :=
  modify (fun s => set_stdout s (stdout s ++ [Print a])).

Definition fmt_Printf (format : string) (a : list string) : M unit :=
  modify (fun s => set_stdout s (stdout s ++ [Printf format a])).

Definition fmt_Fprintf_Stderr (format : string) (a : list string) : M unit :=
  modify (fun s => set_stderr s (stderr s ++ [Printf format a])).

(** [for k, v := range m] over a map: the runtime picks the order. *)
Definition range {V} (m : gmap string V) : M (list (string * V)) :=
  fun s => Done (range_order env V (tick s) m) (set_tick s (S (tick s))).

(** [&StringVector{}] *)
Definition new_StringVector : M loc :=
  fun s => Done (next s)
    (set_next (set_vectors s (<[next s := []]> (vectors s))) (S (next s))).

(** [map[string]string{}] *)
Definition new_map : M loc :=
  fun s => Done (next s)
    (set_next (set_maps s (<[next s := ∅]> (maps s))) (S (next s))).

(** [*v]: the elements of the vector [v] points to; nil panics. *)
Definition deref (v : loc) : M (list string) :=
  fun s => match vectors s !! v with
           | Some l => Done l s
           | None => Panic s
           end.

(** [v.Push(x)] *)
Definition Push (v : loc) (x : string) : M unit :=
  fun s => match vectors s !! v with
           | Some l => Done tt (set_vectors s (<[v := l ++ [x]]> (vectors s)))
           | None => Panic s
           end.

(** The entries of a map value; a nil map reads as the empty map. *)
Definition entries (m : loc) : M (gmap string string) :=
  gets (fun s => default ∅ (maps s !! m)).

(** [m[k] = x]; storing into a nil map panics. *)
Definition store (m : loc) (k x : string) : M unit :=
  fun s => match maps s !! m with
           | Some c => Done tt (set_maps s (<[m := <[k := x]> c]> (maps s)))
           | None => Panic s
           end.

(** [packages[name]] in its one-value form. *)
Definition packages_at (name : string) : M Package :=
  gets (fun s => default zeroPackage (packages s !! name)).

(** [_, ok := packages[name]] *)
Definition packages_ok (name : string) : M bool :=
  gets (fun s => bool_decide (is_Some (packages s !! name))).

Definition parser_ParseFile (fname : string) (mode : Mode) : M ParseResult :=
  ret (ParseFile env fname mode).

(** *** [ast.Walk] and the interface [ast.Visitor] *)

Class Visitor (T : Type) := Visit : T -> Node -> M (option T).

(** [ast.Walk(v, node)]: call [v.Visit(node)]; when the visitor it returns
    is not nil, walk the children with it, in order. *)
Fixpoint Walk {T} `{Visitor T} (v : T) (node : Node) {struct node} : M unit :=
  match node with
  | mkNode _ cs =>
      w <- Visit v node;
      match w with
      | None => ret tt
      | Some w =>
          (fix walkList (l : list Node) : M unit :=
             match l with
             | [] => ret tt
             | c :: l' => Walk w c;; walkList l'
             end) cs
      end
  end.

(** The file node handed to [ast.Walk]; neither visitor reacts to it. *)
Definition file_node (f : File) : Node := mkNode OtherNode (Decls f).

(** [ast.Walk(v, file)] for a [*ast.File].  A nil pointer inside the
    interface value is not a nil interface: [Walk] calls the visitor with
    it, and when a visitor comes back it reads the fields of the file,
    which is a nil dereference. *)
Definition Walk_File {T} `{Visitor T} (v : T) (file : option File) : M unit :=
  match file with
  | Some f => Walk v (file_node f)
  | None =>
      w <- Visit v (mkNode OtherNode []);
      match w with
      | Some _ => panic
      | None => ret tt
      end
  end.

(** *** [addRoot] and [MainCheckVisitor] *)

Definition addRoot (filename : string) : M unit :=
  let fparts := strings.Split filename "."%char in
  match fparts !! 0%nat with
  | Some basename =>
      modify (fun s => set_roots s (<[filename := basename]> (roots s)))
  | None => panic
  end.

Record MainCheckVisitor := mkMainCheckVisitor { fname : string }.

#[export] Instance MainCheckVisitor_Visit : Visitor MainCheckVisitor :=
  fun v node =>
    match kind node with
    | FuncDecl name =>
        when (bool_decide (name = "main")) (addRoot (fname v))
    | _ => ret tt
    end;;
    ret (Some v).

(** *** [HandleFile] and [ImportVisitor] *)

Record ImportVisitor := mkImportVisitor { pkg : Package }.

#[export] Instance ImportVisitor_Visit : Visitor ImportVisitor :=
  fun v node =>
    match kind node with
    | ImportSpec value =>
        let ppath := Clean env (strings.Trim value quote) in
        m <- entries (Package.packages (pkg v));
        match m !! ppath with
        | Some _ => ret tt
        | None => store (Package.packages (pkg v)) ppath ppath
        end
    | _ => ret tt
    end;;
    ret (Some v).

Definition HandleFile (fname : string) (file : option File) : M unit :=
  match file with
  | None => panic   (* file.Name.Name on a nil pointer *)
  | Some tree =>
      let pkgname := Name_Name tree in
      pkgs <- gets packages;
      match pkgs !! pkgname with
      | Some pkg => Push (Package.files pkg) fname
      | None =>
          v <- new_StringVector;
          m <- new_map;
          modify (fun s =>
            set_packages s (<[pkgname := Package.mk v m false]> (packages s)));;
          p <- packages_at pkgname;
          Push (Package.files p) fname
      end;;
      p <- packages_at pkgname;
      Walk_File (mkImportVisitor p) (Some tree)
  end.

(** *** [FindMain] *)

Definition FindMain : M unit :=
  pkgs <- gets packages;
  match pkgs !! "main" with
  | Some pkg =>
      fs <- deref (Package.files pkg);
      for_ fs (fun fname =>
        r <- parser_ParseFile fname FullParse;
        (* the error value of this call is discarded *)
        Walk_File (mkMainCheckVisitor fname) (file r))
  | None => ret tt
  end.

(** *** The emission passes *)

(** [done[k]] for a [map[string]bool]: false when [k] is not a key. *)
Definition done_at (done : gmap string bool) (k : string) : bool :=
  default false (done !! k).

(** PrintNeeded prints out a list of external dependencies. *)
Definition PrintNeeded (pre ppost : string) : M unit :=
  let done : gmap string bool := ∅ in
  fmt_Print pre;;
  pkgs <- gets packages;
  order <- range pkgs;
  foldM (fun done '(_, pkg) =>
      imports <- entries (Package.packages pkg);
      order <- range imports;
      foldM (fun done '(_, pkgname) =>
          ok <- packages_ok pkgname;
          if negb ok && negb (done_at done pkgname) then
            fmt_Printf "%s%s " [pkgname; ppost];;
            ret (<[pkgname := true]> done)
          else ret done)
        done order)
    done order;;
  fmt_Print LF.

Definition PrintFList : M unit :=
  let done : gmap string bool := ∅ in
  fmt_Print "GOFILES = ";;
  pkgs <- gets packages;
  order <- range pkgs;
  foldM (fun done '(_, pkg) =>
      fs <- deref (Package.files pkg);
      foldM (fun done fname =>
          if negb (done_at done fname) then
            fmt_Printf "%s " [fname];;
            ret (<[fname := true]> done)
          else ret done)
        done fs)
    done order;;
  fmt_Printf LF [].

(** The body of the first loop of [PrintDeps] for one entry of
    [packages]. *)
Definition PrintDeps_package (pkgname : string) (pkg : Package) : M unit :=
  when (negb (bool_decide (pkgname = "main")))
    (fmt_Printf "%s.${O}: " [pkgname];;
     fs <- deref (Package.files pkg);
     for_ fs (fun fname => fmt_Printf "%s " [fname]);;
     imports <- entries (Package.packages pkg);
     order <- range imports;
     for_ order (fun '(_, pkgname) =>
       ok <- packages_ok pkgname;
       when (ok || showNeeded env) (fmt_Printf "%s.${O} " [pkgname]));;
     fmt_Printf LF []).

(** The body of the last loop of [PrintDeps] for one file [fname] of the
    main package. *)
Definition PrintDeps_root (main : Package) (common : list string)
    (fname : string) : M unit :=
  rs <- gets roots;
  match rs !! fname with
  | Some app =>
      let done : gmap string bool := ∅ in
      fmt_Printf "%s.${O}: %s " [app; fname];;
      for_ common (fun cfile => fmt_Printf "%s " [cfile]);;
      imports <- entries (Package.packages main);
      order <- range imports;
      foldM (fun done '(_, pkgname) =>
          ok <- packages_ok pkgname;
          if ok || (showNeeded env && negb (done_at done pkgname)) then
            fmt_Printf "%s.${O} " [pkgname];;
            ret (<[pkgname := true]> done)
          else ret done)
        done order;;
      fmt_Printf LF []
  | None => ret tt
  end.

(** PrintDeps prints out the dependency lists. *)
Definition PrintDeps : M unit :=
  pkgs <- gets packages;
  order <- range pkgs;
  for_ order (fun '(pkgname, pkg) => PrintDeps_package pkgname pkg);;
  let common : list string := [] in
  pkgs <- gets packages;
  match pkgs !! "main" with
  | Some main =>
      fs <- deref (Package.files main);
      common <- foldM (fun common fname =>
          rs <- gets roots;
          match rs !! fname with
          | Some app =>
              fmt_Printf ("%s: %s.${O}" +:+ LF) [app; app];;
              ret common
          | None => ret (common ++ [fname])
          end)
        common fs;
      fs <- deref (Package.files main);
      for_ fs (PrintDeps_root main common)
  | None => ret tt
  end.

(** *** [main] *)

Definition ShowVersion : M unit :=
  modify (fun s => set_stdout s (stdout s ++ ShowVersion_out env)).

Definition main : M unit :=
  when (showVersion env) (ShowVersion;; os_Exit 0);;
  (* if there are no files, generate a list *)
  (if bool_decide (length (Args env) = 0%nat) then
     modify (fun s => set_files s (files s ++ Walk_dot env))
   else
     for_ (Args env) (fun fname =>
       modify (fun s => set_files s (files s ++ [fname]))));;
  (* for each file, list dependencies *)
  fs <- gets files;
  for_ fs (fun fname =>
    r <- parser_ParseFile fname ImportsOnly;
    match err r with
    | Some e => fmt_Fprintf_Stderr ("%s" +:+ LF) [e];; os_Exit 1
    | None => HandleFile fname (file r)
    end);;
  FindMain;;
  when (showNeeded env) (PrintNeeded ".EXTERNAL: " ".${O}");;
  (* in any case, print as a comment *)
  PrintNeeded "# external packages: " EmptyString;;
  (* list of all files *)
  PrintFList;;
  PrintDeps.

End Godep.

(** ** Vocabulary for stating what the passes print *)

(** The state after some more print calls and [range] statements: nothing
    else changes during emission. *)
Definition emit (s : State) (evs : list Event) (t : nat) : State :=
  set_tick (set_stdout s (stdout s ++ evs)) t.

(** The unit sequence and the import set that a [Package] value designates
    in the heap of [s]. *)
Definition files_of (s : State) (p : Package) : list string :=
  default [] (vectors s !! Package.files p).

Definition imports_of (s : State) (p : Package) : gmap string string :=
  default ∅ (maps s !! Package.packages p).

(** Every registered package points to an allocated vector. *)
Definition vec_ok (s : State) : Prop :=
  map_Forall (fun _ p => is_Some (vectors s !! Package.files p)) (packages s).

Global Instance vec_ok_dec (s : State) : Decision (vec_ok s).
Proof. unfold vec_ok. apply _. Defined.

(** The items a loop guarded by a [done] map lets through: the first
    occurrence of every element not yet marked. *)
Fixpoint fresh (done : gmap string bool) (l : list string) : list string :=
  match l with
  | [] => []
  | x :: l' =>
      if done_at done x then fresh done l'
      else x :: fresh (<[x := true]> done) l'
  end.

Definition mark (done : gmap string bool) (l : list string)
    : gmap string bool :=
  foldl (fun d x => <[x := true]> d) done l.

(** The print calls of the passes. *)
Definition needed_item (ppost x : string) : Event := Printf "%s%s " [x; ppost].
Definition file_item (fname : string) : Event := Printf "%s " [fname].
Definition dep_item (pkgname : string) : Event := Printf "%s.${O} " [pkgname].
Definition rule_head (pkgname : string) : Event := Printf "%s.${O}: " [pkgname].
Definition root_head (app fname : string) : Event :=
  Printf "%s.${O}: %s " [app; fname].
Definition app_line (app : string) : Event :=
  Printf ("%s: %s.${O}" +:+ LF) [app; app].
Definition end_line : Event := Printf LF [].

(** The import targets met by [PrintNeeded], in the order met: the values
    of each package's import map, package after package; the [range] over
    the first package is the one numbered [t]. *)
Fixpoint targets (env : Env) (s : State) (t : nat)
    (order : list (string * Package)) : list string :=
  match order with
  | [] => []
  | (_, p) :: rest =>
      (range_order env string t (imports_of s p)).*2
        ++ targets env s (S t) rest
  end.

(** [x] is an import target of some registered package. *)
Definition import_target (s : State) (x : string) : Prop :=
  exists name p k, packages s !! name = Some p /\ imports_of s p !! k = Some x.

(** [fname] is a unit of some registered package. *)
Definition unit_of (s : State) (fname : string) : Prop :=
  exists name p, packages s !! name = Some p /\ fname ∈ files_of s p.

(** The unit sequences of the packages of [order], one after the other. *)
Definition listed (s : State) (order : list (string * Package)) : list string :=
  order ≫= (fun np => files_of s np.2).

Definition registered (s : State) (x : string) : bool :=
  bool_decide (is_Some (packages s !! x)).

(** What the first loop of [PrintDeps] prints for the package [name], when
    the [range] over its imports is the one numbered [t]. *)
Definition pkg_rule (env : Env) (s : State) (t : nat) (name : string)
    (p : Package) : list Event :=
  rule_head name :: (file_item <$> files_of s p)
    ++ (dep_item <$> filter (fun x => registered s x || showNeeded env)
                       (range_order env string t (imports_of s p)).*2)
    ++ [end_line].

Fixpoint pkg_rules (env : Env) (s : State) (t : nat)
    (order : list (string * Package)) : list Event :=
  match order with
  | [] => []
  | (name, p) :: rest =>
      if decide (name = "main") then pkg_rules env s t rest
      else pkg_rule env s t name p ++ pkg_rules env s (S t) rest
  end.

(** The packages that get a rule in the first loop. *)
Definition others (order : list (string * Package)) : list (string * Package) :=
  filter (fun np => np.1 <> "main") order.

(** The import targets that the loop over [main.packages] in a root's rule
    lets through. *)
Fixpoint root_deps (env : Env) (s : State) (d : gmap string bool)
    (l : list string) : list string :=
  match l with
  | [] => []
  | x :: l' =>
      if registered s x || (showNeeded env && negb (done_at d x))
      then x :: root_deps env s (<[x := true]> d) l'
      else root_deps env s d l'
  end.

(** What the last loop of [PrintDeps] prints for the root [fname] with
    target name [app]. *)
Definition root_rule (env : Env) (s : State) (t : nat) (main : Package)
    (common : list string) (fname app : string) : list Event :=
  root_head app fname :: (file_item <$> common)
    ++ (dep_item <$> root_deps env s ∅
                       (range_order env string t (imports_of s main)).*2)
    ++ [end_line].

Fixpoint root_rules (env : Env) (s : State) (t : nat) (main : Package)
    (common : list string) (fs : list string) : list Event :=
  match fs with
  | [] => []
  | fname :: rest =>
      match roots s !! fname with
      | Some app =>
          root_rule env s t main common fname app
            ++ root_rules env s (S t) main common rest
      | None => root_rules env s t main common rest
      end
  end.

(** The files of the main package that are, and that are not, keys of
    [roots]. *)
Definition root_files (s : State) (fs : list string) : list string :=
  filter (fun f => is_Some (roots s !! f)) fs.

Definition common_files (s : State) (fs : list string) : list string :=
  filter (fun f => roots s !! f = None) fs.

(** The lines [app: app.${O}] of the first loop over the main package. *)
Definition app_lines (s : State) (fs : list string) : list Event :=
  fs ≫= (fun f => match roots s !! f with
                  | Some app => [app_line app]
                  | None => []
                  end).

(** The print calls of [PrintDeps]: the head of a package rule, a file
    name, an import prerequisite, the end of a line, a line
    [app: app.${O}], the head of a root rule with its file. *)
Inductive deps_event : Event -> Prop :=
| deps_rule_head pkgname : deps_event (rule_head pkgname)
| deps_file_item fname : deps_event (file_item fname)
| deps_dep_item pkgname : deps_event (dep_item pkgname)
| deps_end_line : deps_event end_line
| deps_app_line app : deps_event (app_line app)
| deps_root_head app fname : deps_event (root_head app fname).

(** Everything [PrintDeps] prints for the main package. *)
Definition main_part (env : Env) (s : State) (t : nat) : list Event :=
  match packages s !! "main" with
  | Some main =>
      app_lines s (files_of s main)
        ++ root_rules env s t main (common_files s (files_of s main))
             (files_of s main)
  | None => []
  end.

(** The import targets of [p] that a package rule shows: those that name a
    registered package, and all of them in show-needed mode. *)
Definition shown_deps (env : Env) (s : State) (p : Package) : list string :=
  filter (fun x => registered s x || showNeeded env)
         (map_to_list (imports_of s p)).*2.

(** [rule] is a rule line of the package [np]: its head, its units in
    sequence order, the shown import targets in some order, a line feed. *)
Definition is_pkg_rule (env : Env) (s : State) (np : string * Package)
    (rule : list Event) : Prop :=
  exists deps,
    rule = rule_head np.1 :: (file_item <$> files_of s np.2)
             ++ (dep_item <$> deps) ++ [end_line]
    /\ deps ≡ₚ shown_deps env s np.2.

(** The import targets that a root's rule shows: the registered ones, and in
    show-needed mode each of the others once. *)
Definition root_shown_deps (env : Env) (s : State) (main : Package)
    : list string :=
  filter (fun x => registered s x) (map_to_list (imports_of s main)).*2
  ++ (if showNeeded env
      then fresh ∅ (filter (fun x => ¬ registered s x)
                      (map_to_list (imports_of s main)).*2)
      else []).

(** [rule] is the rule line of the root [fname]: its head with the target
    name and the file, every common file, the shown import targets in some
    order, a line feed. *)
Definition is_root_rule (env : Env) (s : State) (main : Package)
    (common : list string) (fname : string) (rule : list Event) : Prop :=
  exists app deps,
    roots s !! fname = Some app
    /\ rule = root_head app fname :: (file_item <$> common)
                ++ (dep_item <$> deps) ++ [end_line]
    /\ deps ≡ₚ root_shown_deps env s main.

Global Instance NodeKind_eq_dec : EqDecision NodeKind.
Proof. solve_decision. Defined.

(** The kinds of the nodes of a tree, in the order in which [ast.Walk]
    reaches them. *)
Fixpoint kinds (n : Node) : list NodeKind :=
  match n with
  | mkNode k cs =>
      k :: (fix go (l : list Node) : list NodeKind :=
              match l with
              | [] => []
              | c :: l' => kinds c ++ go l'
              end) cs
  end.

(** What a visitor of type [T] does at a node of a given kind, for the
    visitors that look at nothing else and always return themselves. *)
Definition acts_by {T} `{Visitor T} (act : T -> NodeKind -> M unit) : Prop :=
  forall v node s,
    Visit v node s = bind (act v (kind node)) (fun _ => ret (Some v)) s.

(** The [Path.Value] of the import specs of a file, in walk order. *)
Definition import_values (ks : list NodeKind) : list string :=
  omap (fun k => match k with ImportSpec value => Some value | _ => None end) ks.

(** The import target that [ImportVisitor] derives from a [Path.Value]. *)
Definition import_path (env : Env) (value : string) : string :=
  Clean env (strings.Trim value quote).

(** The effect of one visit of an import spec on the import map. *)
Definition add_import (env : Env) (m : gmap string string) (value : string)
    : gmap string string :=
  match m !! import_path env value with
  | Some _ => m
  | None => <[import_path env value := import_path env value]> m
  end.

(** The tree of a parse; the empty file stands in for the tree of a source
    that could not be read. *)
Definition tree_of (r : ParseResult) : File :=
  default (mkFile EmptyString []) (file r).

(** The registry as the passes read it: for every package name the unit
    sequence and the import map. *)
Definition view (s : State) : gmap string (list string * gmap string string) :=
  (fun p => (files_of s p, imports_of s p)) <$> packages s.

(** [HandleFile] on that reading of the registry. *)
Definition handle (env : Env) (r : gmap string (list string * gmap string string))
    (u : string * File) : gmap string (list string * gmap string string) :=
  let old := default ([], ∅) (r !! Name_Name u.2) in
  <[Name_Name u.2 :=
      (old.1 ++ [u.1],
       foldl (add_import env) old.2 (import_values (kinds (file_node u.2))))]> r.

(** A sequence of unit registrations. *)
Definition register (env : Env) (us : list (string * File)) : M unit :=
  for_ us (fun u => HandleFile env u.1 (Some u.2)).

(** The pointers kept in [packages] designate allocated objects, objects of
    different packages are different, and addresses from [next] on are
    unused. *)
Definition heap_ok (s : State) : Prop :=
  (forall name p, packages s !! name = Some p ->
     is_Some (vectors s !! Package.files p)
     /\ is_Some (maps s !! Package.packages p))
  /\ (forall l, next s <= l -> vectors s !! l = None /\ maps s !! l = None)
  /\ (forall n1 n2 p1 p2,
        packages s !! n1 = Some p1 -> packages s !! n2 = Some p2 -> n1 <> n2 ->
        Package.files p1 <> Package.files p2
        /\ Package.packages p1 <> Package.packages p2).

Definition ImportVisitor_act (env : Env) (v : ImportVisitor) (k : NodeKind)
    : M unit :=
  match k with
  | ImportSpec value =>
      let ppath := Clean env (strings.Trim value quote) in
      m <- entries (Package.packages (pkg v));
      match m !! ppath with
      | Some _ => ret tt
      | None => store (Package.packages (pkg v)) ppath ppath
      end
  | _ => ret tt
  end.

(** The unit sequence and the import map of the package [name] in a
    reading of the registry (empty when [name] is not a key). *)
Definition unit_seq (r : gmap string (list string * gmap string string))
    (name : string) : list string :=
  default [] (fst <$> r !! name).

Definition import_map (r : gmap string (list string * gmap string string))
    (name : string) : gmap string string :=
  default ∅ (snd <$> r !! name).

(** The units of [us] whose package clause names [name]. *)
Definition units_in (name : string) (us : list (string * File))
    : list (string * File) :=
  filter (fun u => Name_Name u.2 = name) us.

(** The target name [addRoot] derives from a file name: [fparts[0]]. *)
Definition target_name (filename : string) : string :=
  default EmptyString (strings.Split filename "."%char !! 0%nat).

(** [c] occurs in [s]. *)
Fixpoint contains (c : ascii) (s : string) : bool :=
  match s with
  | EmptyString => false
  | String d s' => if decide (d = c) then true else contains c s'
  end.

(** The file declares a function named main. *)
Definition defines_main (f : File) : bool :=
  bool_decide (FuncDecl "main" ∈ kinds (file_node f)).

(** [roots] after [FindMain] has looked at the files [fs]. *)
Definition found_roots (env : Env) (rs : gmap string string)
    (fs : list string) : gmap string string :=
  foldl (fun r f =>
           if defines_main (tree_of (ParseFile env f FullParse))
           then <[f := target_name f]> r else r) rs fs.

Definition MainCheckVisitor_act (v : MainCheckVisitor) (k : NodeKind)
    : M unit :=
  match k with
  | FuncDecl name => when (bool_decide (name = "main")) (addRoot (fname v))
  | _ => ret tt
  end.


(** The rule lines with the import targets in the order of
    [map_to_list]. *)
Definition plain_pkg_rule (env : Env) (s : State) (np : string * Package)
    : list Event :=
  rule_head np.1 :: (file_item <$> files_of s np.2)
    ++ (dep_item <$> shown_deps env s np.2) ++ [end_line].

Definition plain_root_rule (env : Env) (s : State) (main : Package)
    (common : list string) (fname : string) : list Event :=
  match roots s !! fname with
  | Some app =>
      root_head app fname :: (file_item <$> common)
        ++ (dep_item <$> root_shown_deps env s main) ++ [end_line]
  | None => []
  end.

(** Two runtimes that enumerate every map in the same order. *)
Definition same_order (env1 env2 : Env) : Prop :=
  forall (V : Type) (n : nat) (m : gmap string V),
    range_order env1 V n m = range_order env2 V n m.

(** The file names [main] works on: the arguments, or what the directory
    walk finds when there are none. *)
Definition inputs (env : Env) : list string :=
  if bool_decide (length (Args env) = 0%nat) then Walk_dot env else Args env.

(** The units that [main] hands to [HandleFile] for the file names [l],
    when all of them parse. *)
Definition units_of (env : Env) (l : list string) : list (string * File) :=
  (fun f => (f, tree_of (ParseFile env f ImportsOnly))) <$> l.

(** How often [x] occurs in [l]. *)
Definition count {A} `{EqDecision A} (x : A) (l : list A) : nat :=
  length (filter (x =.) l).

(** The state a computation stops in, whatever the outcome. *)
Definition final {A} (r : Res A) : State :=
  match r with
  | Done _ s => s
  | Exit _ s => s
  | Panic s => s
  end.

(** The first parse of [g] succeeds. *)
Definition parses (env : Env) (g : string) : Prop :=
  err (ParseFile env g ImportsOnly) = None.

Global Instance parses_dec env g : Decision (parses env g).
Proof. unfold parses. apply _. Defined.

(** The parse of [g] in [FindMain] yields a tree. *)
Definition has_tree (env : Env) (g : string) : Prop :=
  is_Some (file (ParseFile env g FullParse)).

Global Instance has_tree_dec env g : Decision (has_tree env g).
Proof. unfold has_tree. apply _. Defined.

(** The full parse of every unit of the main package yields a tree. *)
Definition main_trees (env : Env) (s : State) : Prop :=
  match packages s !! "main" with
  | Some main => Forall (has_tree env) (files_of s main)
  | None => True
  end.

Global Instance main_trees_dec env s : Decision (main_trees env s).
Proof. unfold main_trees. destruct (packages s !! "main"); apply _. Defined.

(** The same for an input file: if its package clause names main, its full
    parse yields a tree. *)
Definition reparses (env : Env) (g : string) : Prop :=
  Name_Name (tree_of (ParseFile env g ImportsOnly)) = "main" ->
  has_tree env g.

Global Instance reparses_dec env g : Decision (reparses env g).
Proof. unfold reparses. apply _. Defined.

(** ** A small source tree to run the program on *)

Module Demo.

Definition import (path : string) : Node :=
  mkNode (ImportSpec (quote +:+ path +:+ quote)) [].

Definition func (name : string) : Node :=
  mkNode (FuncDecl name) [mkNode OtherNode []].

(** The tree of a file: an import declaration, and in a full parse the
    function declarations. *)
Definition tree (name : string) (imports funcs : list string) (mode : Mode)
    : File :=
  mkFile name
    (mkNode OtherNode (import <$> imports)
     :: match mode with
        | FullParse => func <$> funcs
        | ImportsOnly => []
        end).

Definition ParseFile (fname : string) (mode : Mode) : ParseResult :=
  if decide (fname = "main.go") then
    Parsed (tree "main" ["fmt"; "util"] ["main"] mode)
  else if decide (fname = "main.v2.go") then
    Parsed (tree "main" ["fmt"; "os"] ["main"; "usage"] mode)
  else if decide (fname = "common.go") then
    Parsed (tree "main" ["util"] ["usage2"] mode)
  else if decide (fname = "util.go") then
    Parsed (tree "util" ["os"; "log"] ["Join"] mode)
  else if decide (fname = "util_test.go") then
    Parsed (tree "util" ["testing"; "os"] ["TestJoin"] mode)
  else if decide (fname = "log.go") then
    (* a local package log that wraps the library package log *)
    Parsed (tree "log" ["log"; "os"] ["Print"] mode)
  else if decide (fname = "broken.go") then
    (* the import section is fine, a later declaration is not *)
    match mode with
    | ImportsOnly => Parsed (tree "main" ["fmt"] [] mode)
    | FullParse =>
        Partial (tree "main" ["fmt"] ["main"] mode)
          "broken.go:9:1: expected declaration"
    end
  else if decide (fname = "gone.go") then
    (* read by the first parse, removed before the second *)
    match mode with
    | ImportsOnly => Parsed (tree "main" ["os"] [] mode)
    | FullParse => Unread "open gone.go: no such file or directory"
    end
  else
    Unread ("open " +:+ fname +:+ ": no such file or directory").

(** The runtime enumerates a map in the order of [map_to_list], or in the
    reverse of it. *)
Definition forwards (V : Type) (n : nat) (m : gmap string V)
    : list (string * V) := map_to_list m.

Definition backwards (V : Type) (n : nat) (m : gmap string V)
    : list (string * V) := reverse (map_to_list m).

(** [path.Clean] leaves a plain name as it is; the demo imports only
    plain names. *)
Definition env (need : bool) (l : list string) : Env :=
  mkEnv false need l [] [] ParseFile (fun p => p) forwards.

Definition env_backwards (need : bool) (l : list string) : Env :=
  mkEnv false need l [] [] ParseFile (fun p => p) backwards.

Definition args : list string :=
  ["main.go"; "util.go"; "common.go"; "main.v2.go"; "util_test.go"].

(** Arguments that name common.go twice. *)
Definition twice : list string :=
  ["main.go"; "common.go"; "util.go"; "common.go"].

(** The units [main] registers for the arguments [l]. *)
Definition units (l : list string) : list (string * File) :=
  (fun f => (f, tree_of (ParseFile f ImportsOnly))) <$> l.

(** The state after the registrations, before [FindMain]. *)
Definition scanned (l : list string) : State :=
  final (register (env false l) (units l) init).

(** The state before the emission passes. *)
Definition loaded (l : list string) : State :=
  final (bind (register (env false l) (units l))
              (fun _ => FindMain (env false l)) init).

End Demo.
(* ================================================================== *)
(** * Proofs *)

Local Open Scope go_scope.

(** ** The monad *)

Lemma bind_Done {A B} (m : M A) (f : A -> M B) s a s' :
  m s = Done a s' -> bind m f s = f a s'.
Proof. unfold bind. by intros ->. Qed.

Lemma emit_emit s e1 t1 e2 t2 :
  emit (emit s e1 t1) e2 t2 = emit s (e1 ++ e2) t2.
Proof. unfold emit, set_tick, set_stdout; simpl. by rewrite app_assoc. Qed.

Lemma emit_nil s : emit s [] (tick s) = s.
Proof. destruct s; unfold emit, set_tick, set_stdout; simpl. by rewrite app_nil_r. Qed.

Lemma tick_emit s e t : tick (emit s e t) = t.
Proof. done. Qed.

Lemma stdout_emit s e t : stdout (emit s e t) = stdout s ++ e.
Proof. done. Qed.

Lemma fmt_Printf_emit format a s :
  fmt_Printf format a s = Done tt (emit s [Printf format a] (tick s)).
Proof. by destruct s. Qed.

Lemma fmt_Print_emit a s :
  fmt_Print a s = Done tt (emit s [Print a] (tick s)).
Proof. by destruct s. Qed.

Lemma bind_ret {A B} (a : A) (k : A -> M B) s : bind (ret a) k s = k a s.
Proof. done. Qed.

Lemma bind_assoc {A B C} (m : M A) (f : A -> M B) (g : B -> M C) s :
  bind (bind m f) g s = bind m (fun a => bind (f a) g) s.
Proof. unfold bind. by destruct (m s). Qed.

Lemma bind_gets {A B} (f : State -> A) (k : A -> M B) s :
  bind (gets f) k s = k (f s) s.
Proof. done. Qed.

Lemma bind_Printf {B} format a (k : unit -> M B) s :
  bind (fmt_Printf format a) k s = k tt (emit s [Printf format a] (tick s)).
Proof. by destruct s. Qed.

Lemma bind_Print {B} a (k : unit -> M B) s :
  bind (fmt_Print a) k s = k tt (emit s [Print a] (tick s)).
Proof. by destruct s. Qed.

Lemma bind_range env {V B} (m : gmap string V)
    (k : list (string * V) -> M B) s :
  bind (range env m) k s
  = k (range_order env V (tick s) m) (emit s [] (S (tick s))).
Proof.
  destruct s; unfold bind, range, emit, set_tick, set_stdout; simpl.
  by rewrite app_nil_r.
Qed.

Lemma bind_packages_ok {B} x (k : bool -> M B) s :
  bind (packages_ok x) k s = k (bool_decide (is_Some (packages s !! x))) s.
Proof. done. Qed.

Lemma bind_entries {B} p (k : gmap string string -> M B) s :
  bind (entries (Package.packages p)) k s = k (imports_of s p) s.
Proof. done. Qed.

Lemma bind_deref {B} p (k : list string -> M B) s :
  is_Some (vectors s !! Package.files p) ->
  bind (deref (Package.files p)) k s = k (files_of s p) s.
Proof. intros [l Hl]. unfold bind, deref, files_of. by rewrite Hl. Qed.

Lemma foldM_cons {A B} (body : B -> A -> M B) b x l s :
  foldM body b (x :: l) s = bind (body b x) (fun b' => foldM body b' l) s.
Proof. done. Qed.

Lemma for_cons {A} (body : A -> M unit) x l s :
  for_ (x :: l) body s = bind (body x) (fun _ => for_ l body) s.
Proof. unfold for_, bind; simpl. unfold bind. by destruct (body x s) as [[] ?| |]. Qed.

(** One step of symbolic execution of a monadic program on a state. *)
Ltac mstep :=
  first [ rewrite bind_assoc | rewrite bind_ret | rewrite bind_gets
        | rewrite bind_Printf | rewrite bind_Print | rewrite bind_range
        | rewrite bind_packages_ok | rewrite bind_entries
        | rewrite foldM_cons | rewrite for_cons ];
  cbv beta.

(** ** Loops guarded by a [done] map *)

Lemma mark_app d l1 l2 : mark d (l1 ++ l2) = mark (mark d l1) l2.
Proof. apply foldl_app. Qed.

Lemma fresh_app l1 : forall d l2,
  fresh d (l1 ++ l2) = fresh d l1 ++ fresh (mark d (fresh d l1)) l2.
Proof.
  induction l1 as [|x l1 IH]; intros d l2; simpl; [done|].
  destruct (done_at d x); simpl; by rewrite IH.
Qed.

Lemma done_at_insert d x y :
  done_at (<[x := true]> d) y = bool_decide (x = y) || done_at d y.
Proof.
  unfold done_at. rewrite lookup_insert.
  case_decide; [by rewrite bool_decide_eq_true_2|by rewrite bool_decide_eq_false_2].
Qed.

Lemma elem_of_fresh l : forall d x,
  x ∈ fresh d l <-> x ∈ l /\ done_at d x = false.
Proof.
  induction l as [|y l IH]; intros d x; simpl.
  - rewrite elem_of_nil. tauto.
  - destruct (done_at d y) eqn:Hy.
    + rewrite IH, elem_of_cons. split; [tauto|].
      intros [[->|?] ?]; [congruence|tauto].
    + rewrite !elem_of_cons, IH, done_at_insert.
      destruct (decide (y = x)) as [->|Hne].
      * rewrite bool_decide_eq_true_2 by done. simpl. tauto.
      * rewrite bool_decide_eq_false_2 by done. simpl.
        split; [intros [->|?]; [done|tauto]|intros [[->|?] ?]; [done|tauto]].
Qed.

Lemma NoDup_fresh l : forall d, NoDup (fresh d l).
Proof.
  induction l as [|y l IH]; intros d; simpl; [constructor|].
  destruct (done_at d y) eqn:Hy; [done|].
  constructor; [|done].
  rewrite elem_of_fresh, done_at_insert, bool_decide_eq_true_2 by done.
  simpl. intros [_ ?]. done.
Qed.

(** ** [PrintNeeded] *)

Lemma PrintNeeded_inner ppost (order : list (string * string)) : forall d s,
  foldM (fun d '(_, pkgname) =>
          ok <- packages_ok pkgname;
          if negb ok && negb (done_at d pkgname) then
            fmt_Printf "%s%s " [pkgname; ppost];;
            ret (<[pkgname := true]> d)
          else ret d) d order s
  = Done (mark d (fresh d (filter (fun x => packages s !! x = None) order.*2)))
         (emit s (needed_item ppost <$>
                   fresh d (filter (fun x => packages s !! x = None) order.*2))
               (tick s)).
Proof.
  induction order as [|[k x] order IH]; intros d s.
  - simpl. by rewrite emit_nil.
  - rewrite fmap_cons. simpl snd. rewrite filter_cons.
    rewrite foldM_cons, bind_assoc, bind_packages_ok.
    destruct (packages s !! x) as [p|] eqn:Hx.
    + rewrite bool_decide_eq_true_2 by eauto. simpl negb. simpl andb. cbv iota.
      rewrite bind_ret, IH.
      by destruct (decide (Some p = None)).
    + rewrite bool_decide_eq_false_2 by (by intros [? ?]). simpl negb. simpl andb.
      rewrite decide_True by done. simpl fresh.
      destruct (done_at d x); simpl negb; cbv iota.
      * by rewrite bind_ret, IH.
      * rewrite bind_assoc, bind_Printf, bind_ret, IH, emit_emit. done.
Qed.

Lemma targets_emit env s e t' order : forall t,
  targets env (emit s e t') t order = targets env s t order.
Proof. induction order as [|[k p] order IH]; intros t; simpl; [done|]. by rewrite IH. Qed.

Lemma PrintNeeded_outer env ppost (order : list (string * Package)) : forall d s,
  foldM (fun d '(_, pkg) =>
      imports <- entries (Package.packages pkg);
      order <- range env imports;
      foldM (fun d '(_, pkgname) =>
          ok <- packages_ok pkgname;
          if negb ok && negb (done_at d pkgname) then
            fmt_Printf "%s%s " [pkgname; ppost];;
            ret (<[pkgname := true]> d)
          else ret d)
        d order) d order s
  = Done (mark d (fresh d (filter (fun x => packages s !! x = None)
                                  (targets env s (tick s) order))))
         (emit s (needed_item ppost <$>
                   fresh d (filter (fun x => packages s !! x = None)
                                   (targets env s (tick s) order)))
               (tick s + length order)).
Proof.
  induction order as [|[k p] order IH]; intros d s.
  - simpl. by rewrite Nat.add_0_r, emit_nil.
  - do 5 mstep.
    unfold bind at 1. rewrite PrintNeeded_inner, IH.
    rewrite !emit_emit. simpl targets. rewrite filter_app, fresh_app, mark_app, fmap_app.
    rewrite !targets_emit. simpl. repeat f_equal. lia.
Qed.

Lemma PrintNeeded_run env pre ppost s :
  PrintNeeded env pre ppost s
  = Done tt (emit s
      (Print pre ::
       (needed_item ppost <$>
          fresh ∅ (filter (fun x => packages s !! x = None)
                     (targets env s (S (tick s))
                        (range_order env Package (tick s) (packages s)))))
       ++ [Print LF])
      (S (tick s) + length (range_order env Package (tick s) (packages s)))).
Proof.
  unfold PrintNeeded. repeat mstep.
  unfold bind at 1. rewrite PrintNeeded_outer. rewrite fmt_Print_emit, !emit_emit.
  rewrite !targets_emit. done.
Qed.

Lemma elem_of_range env V n (m : gmap string V) k v :
  range_ok env -> (k, v) ∈ range_order env V n m <-> m !! k = Some v.
Proof. intros Hr. by rewrite (Hr V n m), elem_of_map_to_list. Qed.

Lemma elem_of_targets env s order :
  range_ok env -> forall t x,
  x ∈ targets env s t order <->
  exists name p k, (name, p) ∈ order /\ imports_of s p !! k = Some x.
Proof.
  intros Hr. induction order as [|[name p] order IH]; intros t x; simpl.
  - rewrite elem_of_nil. split; [done|]. by intros (? & ? & ? & ?%elem_of_nil & _).
  - rewrite elem_of_app, IH, list_elem_of_fmap. split.
    + intros [([k y] & -> & Hin)|(name' & p' & k & Hin & Hk)].
      * apply elem_of_range in Hin; [|done]. exists name, p, k. split; [left|done].
      * exists name', p', k. split; [by right|done].
    + intros (name' & p' & k & Hin & Hk). apply elem_of_cons in Hin as [Heq|Hin].
      * injection Heq as -> ->. left. exists (k, x). split; [done|].
        by apply elem_of_range.
      * right. by exists name', p', k.
Qed.

Lemma elem_of_needed env s t n x :
  range_ok env ->
  x ∈ fresh ∅ (filter (fun x => packages s !! x = None)
                 (targets env s t (range_order env Package n (packages s))))
  <-> import_target s x /\ packages s !! x = None.
Proof.
  intros Hr.
  rewrite elem_of_fresh, list_elem_of_filter, elem_of_targets by done.
  unfold import_target. split.
  - intros [[Hx (name & p & k & Hin & Hk)] _]. split; [|done].
    exists name, p, k. split; [|done]. by apply elem_of_range in Hin.
  - intros [(name & p & k & Hp & Hk) Hx]. split; [|done]. split; [done|].
    exists name, p, k. split; [|done]. by apply elem_of_range.
Qed.

(** C2: one call of [PrintNeeded] prints, between the prefix and the line
    feed, exactly the import targets that name no registered package, each
    of them once, however many packages import it. *)
Theorem PrintNeeded_external env pre ppost s :
  range_ok env ->
  exists L t,
    PrintNeeded env pre ppost s
    = Done tt (emit s (Print pre :: (needed_item ppost <$> L) ++ [Print LF]) t)
    /\ NoDup L
    /\ forall x, x ∈ L <-> import_target s x /\ packages s !! x = None.
Proof.
  intros Hr. eexists _, _. split; [apply PrintNeeded_run|].
  split; [apply NoDup_fresh|]. intros x. by apply elem_of_needed.
Qed.

Lemma PrintNeeded_external_witness :
  exists L t,
    PrintNeeded (Demo.env true Demo.args) ".EXTERNAL: " ".${O}"
      (Demo.loaded Demo.args)
    = Done tt (emit (Demo.loaded Demo.args)
        (Print ".EXTERNAL: " :: (needed_item ".${O}" <$> L) ++ [Print LF]) t)
    /\ NoDup L
    /\ forall x, x ∈ L <->
         import_target (Demo.loaded Demo.args) x
         /\ packages (Demo.loaded Demo.args) !! x = None.
Proof. apply PrintNeeded_external. intros V n m. reflexivity. Defined.

(** ** [PrintFList] *)

Lemma PrintFList_inner (fs : list string) : forall d s,
  foldM (fun d fname =>
          if negb (done_at d fname) then
            fmt_Printf "%s " [fname];;
            ret (<[fname := true]> d)
          else ret d) d fs s
  = Done (mark d (fresh d fs)) (emit s (file_item <$> fresh d fs) (tick s)).
Proof.
  induction fs as [|x fs IH]; intros d s.
  - simpl. by rewrite emit_nil.
  - mstep. simpl fresh. destruct (done_at d x); simpl negb; cbv iota.
    + by rewrite bind_ret, IH.
    + repeat mstep. by rewrite IH, emit_emit.
Qed.

Lemma PrintFList_outer (order : list (string * Package)) : forall d s,
  Forall (fun np => is_Some (vectors s !! Package.files np.2)) order ->
  foldM (fun d '(_, pkg) =>
      fs <- deref (Package.files pkg);
      foldM (fun d fname =>
          if negb (done_at d fname) then
            fmt_Printf "%s " [fname];;
            ret (<[fname := true]> d)
          else ret d) d fs) d order s
  = Done (mark d (fresh d (listed s order)))
         (emit s (file_item <$> fresh d (listed s order)) (tick s)).
Proof.
  induction order as [|[k p] order IH]; intros d s Hok.
  - simpl. by rewrite emit_nil.
  - apply Forall_cons in Hok as [Hp Hok].
    mstep. rewrite bind_assoc, bind_deref by done.
    unfold bind at 1. rewrite PrintFList_inner, IH by done.
    rewrite emit_emit. unfold listed at 3 4. rewrite bind_cons.
    fold (listed s order). rewrite fresh_app, mark_app, fmap_app. done.
Qed.

Lemma vec_ok_range env s n :
  range_ok env -> vec_ok s ->
  Forall (fun np => is_Some (vectors s !! Package.files np.2))
         (range_order env Package n (packages s)).
Proof.
  intros Hr Hok. apply Forall_forall. intros [name p] Hin.
  apply elem_of_range in Hin; [|done]. by apply (Hok name).
Qed.

Lemma PrintFList_run env s :
  range_ok env -> vec_ok s ->
  PrintFList env s
  = Done tt (emit s
      (Print "GOFILES = " ::
       (file_item <$>
          fresh ∅ (listed s (range_order env Package (tick s) (packages s))))
       ++ [end_line])
      (S (tick s))).
Proof.
  intros Hr Hok. unfold PrintFList. repeat mstep.
  unfold bind at 1. rewrite PrintFList_outer by apply (vec_ok_range env s _ Hr Hok).
  rewrite fmt_Printf_emit, !emit_emit. done.
Qed.


(** ** [PrintDeps]: the rules of the packages other than main *)

Lemma for_files (fs : list string) : forall s,
  for_ fs (fun fname => fmt_Printf "%s " [fname]) s
  = Done tt (emit s (file_item <$> fs) (tick s)).
Proof.
  induction fs as [|x fs IH]; intros s.
  - unfold for_; simpl. by rewrite emit_nil.
  - repeat mstep. by rewrite IH, emit_emit.
Qed.

Lemma for_deps env (order : list (string * string)) : forall s,
  for_ order (fun '(_, pkgname) =>
       ok <- packages_ok pkgname;
       when (ok || showNeeded env) (fmt_Printf "%s.${O} " [pkgname])) s
  = Done tt (emit s
      (dep_item <$> filter (fun x => registered s x || showNeeded env) order.*2)
      (tick s)).
Proof.
  induction order as [|[k x] order IH]; intros s.
  - unfold for_; simpl. by rewrite emit_nil.
  - rewrite fmap_cons, filter_cons. simpl snd. repeat mstep.
    fold (registered s x). destruct (registered s x || showNeeded env) eqn:Hc.
    + rewrite decide_True by exact I. simpl when. mstep. by rewrite IH, emit_emit.
    + rewrite decide_False by (intros []). simpl when. mstep. by rewrite IH.
Qed.

Lemma PrintDeps_package_run env name p s :
  is_Some (vectors s !! Package.files p) ->
  PrintDeps_package env name p s
  = Done tt (if decide (name = "main") then s
             else emit s (pkg_rule env s (tick s) name p) (S (tick s))).
Proof.
  intros Hp. unfold PrintDeps_package. destruct (decide (name = "main")) as [->|Hne].
  - done.
  - rewrite bool_decide_eq_false_2 by done. simpl when. repeat mstep.
    rewrite bind_deref by done. unfold bind at 1. rewrite for_files.
    repeat mstep. unfold bind at 1. rewrite for_deps, fmt_Printf_emit, !emit_emit.
    done.
Qed.

Lemma pkg_rules_emit env s e t' order : forall t,
  pkg_rules env (emit s e t') t order = pkg_rules env s t order.
Proof.
  induction order as [|[k p] order IH]; intros t; simpl; [done|].
  by rewrite !IH.
Qed.

Lemma PrintDeps_packages_run env (order : list (string * Package)) : forall s,
  Forall (fun np => is_Some (vectors s !! Package.files np.2)) order ->
  for_ order (fun '(pkgname, pkg) => PrintDeps_package env pkgname pkg) s
  = Done tt (emit s (pkg_rules env s (tick s) order)
                    (tick s + length (others order))).
Proof.
  induction order as [|[name p] order IH]; intros s Hok.
  - unfold for_; simpl. by rewrite Nat.add_0_r, emit_nil.
  - apply Forall_cons in Hok as [Hp Hok]. mstep.
    unfold bind at 1. rewrite PrintDeps_package_run by done.
    unfold others. rewrite filter_cons. simpl pkg_rules. simpl fst.
    destruct (decide (name = "main")) as [->|Hne].
    + rewrite decide_False by (by intros ?). by rewrite IH.
    + rewrite decide_True by done. rewrite IH by done.
      rewrite emit_emit, pkg_rules_emit, tick_emit. simpl length.
      by rewrite Nat.add_succ_r.
Qed.

(** ** [PrintDeps]: the rules of the roots, and the whole pass *)

Lemma root_deps_emit env s e t l : forall d,
  root_deps env (emit s e t) d l = root_deps env s d l.
Proof.
  induction l as [|x l IH]; intros d; simpl; [done|].
  change (registered (emit s e t) x) with (registered s x).
  by rewrite !IH.
Qed.

Lemma root_deps_loop env (order : list (string * string)) : forall d s,
  foldM (fun d '(_, pkgname) =>
          ok <- packages_ok pkgname;
          if ok || (showNeeded env && negb (done_at d pkgname)) then
            fmt_Printf "%s.${O} " [pkgname];;
            ret (<[pkgname := true]> d)
          else ret d) d order s
  = Done (mark d (root_deps env s d order.*2))
         (emit s (dep_item <$> root_deps env s d order.*2) (tick s)).
Proof.
  induction order as [|[k x] order IH]; intros d s.
  - simpl. by rewrite emit_nil.
  - rewrite fmap_cons. simpl snd. simpl root_deps. repeat mstep.
    fold (registered s x).
    destruct (registered s x || showNeeded env && negb (done_at d x)).
    + repeat mstep. by rewrite IH, emit_emit, root_deps_emit.
    + mstep. by rewrite IH.
Qed.

Lemma PrintDeps_root_run env main common fname s :
  PrintDeps_root env main common fname s
  = Done tt (match roots s !! fname with
             | Some app => emit s (root_rule env s (tick s) main common fname app)
                             (S (tick s))
             | None => s
             end).
Proof.
  unfold PrintDeps_root. mstep. destruct (roots s !! fname) as [app|]; [|done].
  repeat mstep. unfold bind at 1. rewrite for_files. repeat mstep.
  unfold bind at 1. rewrite root_deps_loop, fmt_Printf_emit, !emit_emit.
  by rewrite root_deps_emit.
Qed.

Lemma root_rules_emit env s e t' main common fs : forall t,
  root_rules env (emit s e t') t main common fs = root_rules env s t main common fs.
Proof.
  induction fs as [|f fs IH]; intros t; simpl; [done|].
  change (roots (emit s e t')) with (roots s).
  destruct (roots s !! f); rewrite IH; [|done].
  unfold root_rule. by rewrite root_deps_emit.
Qed.

Lemma PrintDeps_roots_run env main common (fs : list string) : forall s,
  for_ fs (PrintDeps_root env main common) s
  = Done tt (emit s (root_rules env s (tick s) main common fs)
                    (tick s + length (root_files s fs))).
Proof.
  induction fs as [|f fs IH]; intros s.
  - unfold for_; simpl. by rewrite Nat.add_0_r, emit_nil.
  - mstep. unfold bind at 1. rewrite PrintDeps_root_run.
    unfold root_files. rewrite filter_cons. simpl root_rules.
    destruct (roots s !! f) as [app|] eqn:Hf.
    + rewrite decide_True by eauto. rewrite IH.
      rewrite emit_emit, root_rules_emit, tick_emit. simpl length.
      by rewrite Nat.add_succ_r.
    + rewrite decide_False by (by intros [? ?]). by rewrite IH.
Qed.

Lemma PrintDeps_common_run (fs : list string) : forall common s,
  foldM (fun common fname =>
          rs <- gets roots;
          match rs !! fname with
          | Some app =>
              fmt_Printf ("%s: %s.${O}" +:+ LF) [app; app];;
              ret common
          | None => ret (common ++ [fname])
          end) common fs s
  = Done (common ++ common_files s fs) (emit s (app_lines s fs) (tick s)).
Proof.
  induction fs as [|f fs IH]; intros common s.
  - simpl. by rewrite emit_nil, app_nil_r.
  - unfold common_files, app_lines. rewrite filter_cons, bind_cons.
    repeat mstep. destruct (roots s !! f) as [app|] eqn:Hf.
    + rewrite decide_False by done. repeat mstep. by rewrite IH, emit_emit.
    + rewrite decide_True by done. mstep. rewrite IH. by rewrite <- app_assoc.
Qed.

Lemma PrintDeps_run env s :
  range_ok env -> vec_ok s ->
  PrintDeps env s
  = Done tt (emit s
      (pkg_rules env s (S (tick s)) (range_order env Package (tick s) (packages s))
       ++ main_part env s
            (S (tick s)
             + length (others (range_order env Package (tick s) (packages s)))))
      (S (tick s)
       + length (others (range_order env Package (tick s) (packages s)))
       + match packages s !! "main" with
         | Some main => length (root_files s (files_of s main))
         | None => 0
         end)).
Proof.
  intros Hr Hok. unfold PrintDeps, main_part. repeat mstep.
  unfold bind at 1.
  rewrite PrintDeps_packages_run by apply (vec_ok_range env s _ Hr Hok).
  mstep. change (packages (emit _ _ _)) with (packages s).
  destruct (packages s !! "main") as [main|] eqn:Hmain.
  - rewrite bind_deref by (by apply (Hok "main")). unfold bind at 1.
    rewrite PrintDeps_common_run. rewrite bind_deref by (by apply (Hok "main")).
    rewrite PrintDeps_roots_run. rewrite !emit_emit, !tick_emit.
    rewrite pkg_rules_emit, root_rules_emit. simpl app. done.
  - rewrite !emit_emit, !tick_emit. rewrite pkg_rules_emit, app_nil_r, Nat.add_0_r.
    done.
Qed.

Lemma range_values env n (m : gmap string string) :
  range_ok env -> (range_order env string n m).*2 ≡ₚ (map_to_list m).*2.
Proof. intros Hr. by rewrite (Hr string n m). Qed.

Lemma pkg_rules_structure env s order :
  range_ok env -> forall t,
  exists rules,
    pkg_rules env s t order = concat rules
    /\ Forall2 (is_pkg_rule env s) (others order) rules.
Proof.
  intros Hr. induction order as [|[name p] order IH]; intros t.
  - exists []. split; [done|]. constructor.
  - unfold others. rewrite filter_cons. simpl.
    destruct (decide (name = "main")) as [->|Hne].
    + rewrite decide_False by (by intros ?). apply IH.
    + rewrite decide_True by done. destruct (IH (S t)) as (rules & Heq & Hall).
      exists (pkg_rule env s t name p :: rules). split; [by rewrite Heq|].
      constructor; [|done]. eexists. split; [reflexivity|].
      unfold shown_deps. by rewrite range_values.
Qed.

Lemma fresh_insert_notin l : forall d x,
  x ∉ l -> fresh (<[x := true]> d) l = fresh d l.
Proof.
  induction l as [|y l IH]; intros d x Hx; simpl; [done|].
  apply not_elem_of_cons in Hx as [Hne Hx].
  rewrite done_at_insert, bool_decide_eq_false_2 by done. simpl.
  destruct (done_at d y); [by apply IH|].
  f_equal. rewrite insert_insert_ne by done. by apply IH.
Qed.

Lemma root_deps_perm env s l : forall d,
  root_deps env s d l
  ≡ₚ filter (fun x => registered s x) l
     ++ (if showNeeded env
         then fresh d (filter (fun x => ¬ registered s x) l) else []).
Proof.
  induction l as [|x l IH]; intros d; simpl.
  - by destruct (showNeeded env).
  - rewrite !filter_cons. destruct (registered s x) eqn:Hx; simpl.
    + f_equiv. rewrite IH. f_equiv. destruct (showNeeded env); [|done].
      rewrite fresh_insert_notin; [done|].
      rewrite list_elem_of_filter. intros [Hn _]. apply Hn. by rewrite Hx.
    + destruct (showNeeded env); simpl; [|apply IH].
      destruct (done_at d x); simpl; [apply IH|].
      rewrite IH. apply Permutation_middle.
Qed.

Lemma root_rules_structure env s main common fs :
  range_ok env -> forall t,
  exists rules,
    root_rules env s t main common fs = concat rules
    /\ Forall2 (is_root_rule env s main common) (root_files s fs) rules.
Proof.
  intros Hr. induction fs as [|f fs IH]; intros t.
  - exists []. split; [done|]. constructor.
  - unfold root_files. rewrite filter_cons. simpl.
    destruct (roots s !! f) as [app|] eqn:Hf.
    + rewrite decide_True by eauto. destruct (IH (S t)) as (rules & Heq & Hall).
      exists (root_rule env s t main common f app :: rules).
      split; [by rewrite Heq|]. constructor; [|done].
      exists app. eexists. split; [done|]. split; [reflexivity|].
      rewrite root_deps_perm. unfold root_shown_deps.
      pose proof (range_values env t (imports_of s main) Hr) as Hp.
      f_equiv; [by rewrite Hp|]. destruct (showNeeded env); [|done].
      apply NoDup_Permutation; [apply NoDup_fresh..|]. intros x.
      by rewrite !elem_of_fresh, !list_elem_of_filter, Hp.
    + rewrite decide_False by (by intros [? ?]). apply IH.
Qed.

Lemma PrintDeps_structure env s :
  range_ok env -> vec_ok s ->
  exists order prules lines rrules t,
    PrintDeps env s
    = Done tt (emit s (concat prules ++ lines ++ concat rrules) t)
    /\ order ≡ₚ map_to_list (packages s)
    /\ Forall2 (is_pkg_rule env s) (others order) prules
    /\ match packages s !! "main" with
       | Some main =>
           lines = app_lines s (files_of s main)
           /\ Forall2 (is_root_rule env s main
                         (common_files s (files_of s main)))
                      (root_files s (files_of s main)) rrules
       | None => lines = [] /\ rrules = []
       end.
Proof.
  intros Hr Hok. rewrite PrintDeps_run by done.
  set (order := range_order env Package (tick s) (packages s)).
  destruct (pkg_rules_structure env s order Hr (S (tick s))) as (prules & Hp & HP).
  exists order, prules. unfold main_part.
  destruct (packages s !! "main") as [main|] eqn:Hmain.
  - destruct (root_rules_structure env s main (common_files s (files_of s main))
                (files_of s main) Hr (S (tick s) + length (others order)))
      as (rrules & Hrr & HR).
    exists (app_lines s (files_of s main)), rrules. eexists.
    split; [by rewrite Hp, Hrr|]. split; [apply Hr|]. done.
  - exists [], []. eexists. split; [by rewrite Hp|]. split; [apply Hr|]. done.
Qed.

(** ** What [PrintDeps] guarantees *)

Lemma elem_of_shown_deps env s p x :
  x ∈ shown_deps env s p <->
  (exists k, imports_of s p !! k = Some x)
  /\ (is_Some (packages s !! x) \/ showNeeded env = true).
Proof.
  unfold shown_deps. rewrite list_elem_of_filter, list_elem_of_fmap.
  unfold registered. rewrite orb_True, bool_decide_spec, Is_true_true.
  split.
  - intros [Hc ([k y] & -> & Hin)]. split; [|done]. exists k.
    by apply elem_of_map_to_list.
  - intros [[k Hk] Hc]. split; [done|]. exists (k, x). split; [done|].
    by apply elem_of_map_to_list.
Qed.

(** C4: every package other than main gets one rule line; the line names
    all the units of the package and, of its import targets, those that name
    a registered package, or all of them in show-needed mode. *)
Theorem PrintDeps_package_rules env s :
  range_ok env -> vec_ok s ->
  exists order rules rest t,
    PrintDeps env s = Done tt (emit s (concat rules ++ rest) t)
    /\ order ≡ₚ map_to_list (packages s)
    /\ Forall2 (is_pkg_rule env s) (others order) rules
    /\ forall p x,
         x ∈ shown_deps env s p <->
         (exists k, imports_of s p !! k = Some x)
         /\ (is_Some (packages s !! x) \/ showNeeded env = true).
Proof.
  intros Hr Hok.
  destruct (PrintDeps_structure env s Hr Hok)
    as (order & prules & lines & rrules & t & Hrun & Hperm & HP & _).
  exists order, prules, (lines ++ concat rrules), t.
  split; [done|]. split; [done|]. split; [done|].
  intros p x. apply elem_of_shown_deps.
Qed.

Lemma PrintDeps_package_rules_witness :
  exists order rules rest t,
    PrintDeps (Demo.env false Demo.args) (Demo.loaded Demo.args)
    = Done tt (emit (Demo.loaded Demo.args) (concat rules ++ rest) t)
    /\ order ≡ₚ map_to_list (packages (Demo.loaded Demo.args))
    /\ Forall2 (is_pkg_rule (Demo.env false Demo.args) (Demo.loaded Demo.args))
               (others order) rules
    /\ forall p x,
         x ∈ shown_deps (Demo.env false Demo.args) (Demo.loaded Demo.args) p <->
         (exists k, imports_of (Demo.loaded Demo.args) p !! k = Some x)
         /\ (is_Some (packages (Demo.loaded Demo.args) !! x)
             \/ showNeeded (Demo.env false Demo.args) = true).
Proof.
  apply PrintDeps_package_rules.
  - intros V n m. reflexivity.
  - apply (bool_decide_unpack _). vm_compute. exact I.
Defined.

Lemma root_head_pkg_rule env s np rule app c :
  is_pkg_rule env s np rule -> root_head app c ∉ rule.
Proof.
  intros (deps & -> & _) Hin.
  rewrite elem_of_cons, !elem_of_app, !list_elem_of_fmap, list_elem_of_singleton in Hin.
  destruct Hin as [H|[(? & H & _)|[(? & H & _)|H]]]; discriminate H.
Qed.

Lemma root_head_root_rule env s main common f rule app c :
  is_root_rule env s main common f rule -> root_head app c ∈ rule ->
  c = f /\ roots s !! c = Some app.
Proof.
  intros (app' & deps & Hf & -> & _) Hin.
  rewrite elem_of_cons, !elem_of_app, !list_elem_of_fmap, list_elem_of_singleton in Hin.
  destruct Hin as [H|[(? & H & _)|[(? & H & _)|H]]]; try discriminate H.
  injection H as -> ->. done.
Qed.

Lemma root_head_app_lines s fs app c : root_head app c ∉ app_lines s fs.
Proof.
  unfold app_lines. rewrite list_elem_of_bind. intros (f & Hin & _).
  destruct (roots s !! f); [|by apply elem_of_nil in Hin].
  apply list_elem_of_singleton in Hin. discriminate Hin.
Qed.

Lemma elem_of_concat_Forall2 {A B} (R : A -> list B -> Prop) xs rules y :
  Forall2 R xs rules -> y ∈ concat rules ->
  exists x rule, x ∈ xs /\ R x rule /\ y ∈ rule.
Proof.
  induction 1 as [|x rule xs rules HR _ IH]; simpl.
  - by intros ?%elem_of_nil.
  - rewrite elem_of_app. intros [Hy|Hy].
    + exists x, rule. split; [left|done].
    + destruct (IH Hy) as (x' & rule' & ? & ? & ?). exists x', rule'.
      split; [by right|done].
Qed.

Lemma Forall2_elem_r {A B} (R : A -> B -> Prop) xs ys y :
  Forall2 R xs ys -> y ∈ ys -> exists x, x ∈ xs /\ R x y.
Proof.
  induction 1 as [|x y' xs ys HR _ IH].
  - by intros ?%elem_of_nil.
  - rewrite elem_of_cons. intros [->|Hy].
    + exists x. split; [left|done].
    + destruct (IH Hy) as (x' & ? & ?). exists x'. split; [by right|done].
Qed.

(** C1: when the main package exists, [PrintDeps] treats every unit of it
    that is not a key of [roots] as common; every root gets one rule line
    that names its own file and all the common files, so two roots both name
    each common file; and no rule line is headed by a common file. *)
Theorem PrintDeps_roots_common env s main :
  range_ok env -> vec_ok s -> packages s !! "main" = Some main ->
  exists front rules t,
    PrintDeps env s
    = Done tt (emit s (front ++ app_lines s (files_of s main) ++ concat rules) t)
    /\ (forall f, f ∈ files_of s main ->
          roots s !! f = None <-> f ∈ common_files s (files_of s main))
    /\ Forall2 (is_root_rule env s main (common_files s (files_of s main)))
               (root_files s (files_of s main)) rules
    /\ (forall rule c, rule ∈ rules ->
          c ∈ common_files s (files_of s main) -> file_item c ∈ rule)
    /\ (forall app c,
          root_head app c
            ∈ front ++ app_lines s (files_of s main) ++ concat rules ->
          roots s !! c = Some app /\ c ∉ common_files s (files_of s main)).
Proof.
  intros Hr Hok Hmain.
  destruct (PrintDeps_structure env s Hr Hok)
    as (order & prules & lines & rrules & t & Hrun & Hperm & HP & HM).
  rewrite Hmain in HM. destruct HM as [-> HR].
  exists (concat prules), rrules, t. split; [done|]. split; [|split; [done|split]].
  - intros f Hf. unfold common_files. rewrite list_elem_of_filter. tauto.
  - intros rule c Hrule Hc.
    destruct (Forall2_elem_r _ _ _ _ HR Hrule) as (f & _ & app & deps & _ & -> & _).
    rewrite elem_of_cons, elem_of_app. right. left. by apply list_elem_of_fmap_2.
  - intros app c. rewrite !elem_of_app. intros [Hin|[Hin|Hin]].
    + destruct (elem_of_concat_Forall2 _ _ _ _ HP Hin) as (np & rule & _ & Hrule & Hc).
      by apply (root_head_pkg_rule _ _ _ _ app c) in Hrule.
    + by apply root_head_app_lines in Hin.
    + destruct (elem_of_concat_Forall2 _ _ _ _ HR Hin) as (f & rule & _ & Hrule & Hc).
      destruct (root_head_root_rule _ _ _ _ _ _ _ _ Hrule Hc) as [-> Hroot].
      split; [done|]. unfold common_files. rewrite list_elem_of_filter.
      intros [Hn _]. congruence.
Qed.

Lemma PrintDeps_roots_common_witness :
  exists front rules t,
    PrintDeps (Demo.env false Demo.args) (Demo.loaded Demo.args)
    = Done tt (emit (Demo.loaded Demo.args)
        (front
         ++ app_lines (Demo.loaded Demo.args)
              (files_of (Demo.loaded Demo.args) (Package.mk 1 2 false))
         ++ concat rules) t)
    /\ Forall2 (is_root_rule (Demo.env false Demo.args) (Demo.loaded Demo.args)
                 (Package.mk 1 2 false) ["common.go"])
               ["main.go"; "main.v2.go"] rules.
Proof.
  destruct (PrintDeps_roots_common (Demo.env false Demo.args)
              (Demo.loaded Demo.args) (Package.mk 1 2 false))
    as (front & rules & t & Hrun & _ & Hrules & _).
  - intros V n m. reflexivity.
  - apply (bool_decide_unpack _). vm_compute. exact I.
  - vm_compute. reflexivity.
  - exists front, rules, t. split; [exact Hrun|exact Hrules].
Defined.


(** ** [ast.Walk] *)

Lemma for_app {A} (body : A -> M unit) l1 l2 s :
  for_ (l1 ++ l2) body s = bind (for_ l1 body) (fun _ => for_ l2 body) s.
Proof.
  revert s. induction l1 as [|x l1 IH]; intros s; [done|].
  rewrite <- app_comm_cons, for_cons. unfold bind at 2. rewrite for_cons.
  unfold bind at 1 2. destruct (body x s); [|done..]. rewrite IH. done.
Qed.

Lemma Node_forall (P : Node -> Prop) :
  (forall k cs, Forall P cs -> P (mkNode k cs)) -> forall n, P n.
Proof.
  intros H. fix IH 1. intros [k cs]. apply H.
  induction cs as [|c cs IHcs]; constructor; [apply IH|apply IHcs].
Qed.

Lemma bind_Exit {A B} (m : M A) (f : A -> M B) s c s' :
  m s = Exit c s' -> bind m f s = Exit c s'.
Proof. unfold bind. by intros ->. Qed.

Lemma bind_Panic {A B} (m : M A) (f : A -> M B) s s' :
  m s = Panic s' -> bind m f s = Panic s'.
Proof. unfold bind. by intros ->. Qed.

Lemma Walk_kinds {T} `{Visitor T} (act : T -> NodeKind -> M unit) :
  acts_by act ->
  forall node (v : T) s, Walk v node s = for_ (kinds node) (act v) s.
Proof.
  intros Hact. induction node as [k cs IH] using Node_forall. intros v s.
  cbn [Walk kinds]. rewrite for_cons.
  destruct (act v k s) as [[] s1|c s1|s1] eqn:Ha.
  - rewrite (bind_Done _ _ _ _ _ Ha).
    erewrite bind_Done; [|rewrite Hact; by erewrite bind_Done by exact Ha].
    clear s Ha. revert s1.
    induction IH as [|c cs Hc _ IHcs]; intros s1; [done|].
    rewrite for_app. pose proof (Hc v s1) as Hf.
    destruct (Walk v c s1) as [[] s2|c' s2|s2] eqn:Hw; symmetry in Hf.
    + rewrite (bind_Done _ _ _ _ _ Hf), <- IHcs.
      by rewrite (bind_Done _ _ _ _ _ Hw).
    + rewrite (bind_Exit _ _ _ _ _ Hf). by rewrite (bind_Exit _ _ _ _ _ Hw).
    + rewrite (bind_Panic _ _ _ _ Hf). by rewrite (bind_Panic _ _ _ _ Hw).
  - rewrite (bind_Exit _ _ _ _ _ Ha).
    erewrite bind_Exit; [done|rewrite Hact; by erewrite bind_Exit by exact Ha].
  - rewrite (bind_Panic _ _ _ _ Ha).
    erewrite bind_Panic; [done|rewrite Hact; by erewrite bind_Panic by exact Ha].
Qed.

(** ** [HandleFile] *)

Lemma ImportVisitor_acts env :
  acts_by (H := ImportVisitor_Visit env) (ImportVisitor_act env).
Proof. intros v [k cs] s. by destruct k. Qed.

Lemma set_maps_id s : set_maps s (maps s) = s.
Proof. by destruct s. Qed.

Lemma ImportVisitor_loop env p ks : forall s c,
  maps s !! Package.packages p = Some c ->
  for_ ks (ImportVisitor_act env (mkImportVisitor p)) s
  = Done tt (set_maps s
      (<[Package.packages p := foldl (add_import env) c (import_values ks)]>
         (maps s))).
Proof.
  induction ks as [|k ks IH]; intros s c Hc.
  - unfold for_; simpl. by rewrite insert_id, set_maps_id.
  - rewrite for_cons. destruct k as [value| |]; simpl import_values.
    + simpl ImportVisitor_act. rewrite bind_assoc, bind_entries.
      unfold imports_of. simpl pkg. rewrite Hc. simpl default. cbn [omap list_omap foldl].
      unfold add_import at 2. unfold import_path at 1.
      destruct (c !! Clean env (strings.Trim value quote)) eqn:Hl.
      * rewrite bind_ret. by apply IH.
      * unfold bind at 1, store. rewrite Hc.
        rewrite (IH _ (<[import_path env value := import_path env value]> c))
          by apply lookup_insert_eq.
        unfold set_maps; simpl. by rewrite insert_insert_eq.
    + simpl ImportVisitor_act. rewrite bind_ret. by apply IH.
    + simpl ImportVisitor_act. rewrite bind_ret. by apply IH.
Qed.

Lemma bind_packages_at {B} name (k : Package -> M B) s :
  bind (packages_at name) k s
  = k (default zeroPackage (packages s !! name)) s.
Proof. done. Qed.

Lemma bind_Push {B} v x l (k : unit -> M B) s :
  vectors s !! v = Some l ->
  bind (Push v x) k s = k tt (set_vectors s (<[v := l ++ [x]]> (vectors s))).
Proof. intros Hl. unfold bind, Push. by rewrite Hl. Qed.

Lemma heap_ok_lt s name p :
  heap_ok s -> packages s !! name = Some p ->
  Package.files p < next s /\ Package.packages p < next s.
Proof.
  intros (Halloc & Hfresh & _) Hp. destruct (Halloc _ _ Hp) as [[l Hl] [c Hc]].
  split.
  - destruct (decide (Package.files p < next s)) as [|Hge]; [done|].
    destruct (Hfresh (Package.files p)) as [Hn _]; [lia|congruence].
  - destruct (decide (Package.packages p < next s)) as [|Hge]; [done|].
    destruct (Hfresh (Package.packages p)) as [_ Hn]; [lia|congruence].
Qed.

(** The step both branches of [HandleFile] make on the heap. *)
Lemma heap_step s s' name p fs' im' :
  heap_ok s ->
  packages s' = <[name := p]> (packages s) ->
  vectors s' = <[Package.files p := fs']> (vectors s) ->
  maps s' = <[Package.packages p := im']> (maps s) ->
  next s <= next s' ->
  Package.files p < next s' -> Package.packages p < next s' ->
  (forall n2 p2, n2 <> name -> packages s !! n2 = Some p2 ->
     Package.files p2 <> Package.files p
     /\ Package.packages p2 <> Package.packages p) ->
  heap_ok s' /\ view s' = <[name := (fs', im')]> (view s).
Proof.
  intros (Halloc & Hfresh & Hinj) Hpk Hvec Hmap Hnext Hf Hm Hsep.
  assert (forall n q, packages s' !! n = Some q ->
            (n = name /\ q = p) \/ (n <> name /\ packages s !! n = Some q))
    as Hlook.
  { intros n q. rewrite Hpk, lookup_insert. case_decide as Hn.
    - intros [= <-]. by left.
    - intros Hq. right. split; [congruence|done]. }
  split; [split; [|split]|].
  - intros n q Hq. destruct (Hlook n q Hq) as [[-> ->]|[Hne Hq']].
    + rewrite Hvec, Hmap, !lookup_insert_eq. eauto.
    + destruct (Hsep n q Hne Hq') as [Hd1 Hd2].
      rewrite Hvec, Hmap, !lookup_insert_ne by done. by apply (Halloc n).
  - intros l Hl. rewrite Hvec, Hmap, !lookup_insert_ne by lia.
    apply Hfresh. lia.
  - intros n1 n2 q1 q2 H1 H2 Hne.
    destruct (Hlook _ _ H1) as [[-> ->]|[Hne1 H1']];
      destruct (Hlook _ _ H2) as [[-> ->]|[Hne2 H2']].
    + done.
    + destruct (Hsep _ _ Hne2 H2'). split; congruence.
    + by apply (Hsep n1 q1).
    + by apply (Hinj n1 n2).
  - apply map_eq. intros n. unfold view. rewrite lookup_fmap, Hpk.
    destruct (decide (n = name)) as [->|Hne].
    + rewrite !lookup_insert_eq. simpl. unfold files_of, imports_of.
      by rewrite Hvec, Hmap, !lookup_insert_eq.
    + rewrite !lookup_insert_ne by done. rewrite lookup_fmap.
      destruct (packages s !! n) as [p2|] eqn:Hp2; [|done]. simpl.
      destruct (Hsep _ _ Hne Hp2) as [Hd1 Hd2].
      unfold files_of, imports_of.
      by rewrite Hvec, Hmap, !lookup_insert_ne.
Qed.

Lemma HandleFile_run env fname file s :
  heap_ok s ->
  exists s',
    HandleFile env fname (Some file) s = Done tt s'
    /\ heap_ok s'
    /\ view s' = handle env (view s) (fname, file)
    /\ roots s' = roots s /\ files s' = files s
    /\ stdout s' = stdout s /\ stderr s' = stderr s /\ tick s' = tick s.
Proof.
  intros Hok. unfold HandleFile, Walk_File, handle. simpl fst; simpl snd.
  set (name := Name_Name file). set (ks := kinds (file_node file)).
  rewrite bind_gets. cbv beta.
  pose proof Hok as (Halloc & Hfresh & Hinj).
  destruct (packages s !! name) as [p|] eqn:Hp.
  - destruct (Halloc _ _ Hp) as [[l Hl] [c Hc]].
    rewrite (bind_Push _ _ l) by done.
    rewrite bind_packages_at. simpl packages. rewrite Hp. simpl default.
    rewrite (Walk_kinds _ (ImportVisitor_acts env)).
    rewrite (ImportVisitor_loop env p _ _ c) by done.
    eexists. split; [reflexivity|].
    destruct (heap_ok_lt s name p Hok Hp) as [Hlt1 Hlt2].
    match goal with |- heap_ok ?s' /\ _ =>
      cut (heap_ok s' /\ view s' = <[name := (l ++ [fname],
             foldl (add_import env) c (import_values ks))]> (view s)) end.
    { intros [Hok' Hview]. split; [exact Hok'|]. split; [|done]. rewrite Hview.
      unfold view. rewrite lookup_fmap, Hp. simpl.
      unfold files_of, imports_of. by rewrite Hl, Hc. }
    apply (heap_step s _ name p); simpl; try done.
    + by rewrite insert_id.
    + intros n2 p2 Hne Hp2. by apply (Hinj n2 name).
  - rewrite !bind_assoc. unfold bind at 1, new_StringVector.
    rewrite !bind_assoc. unfold bind at 1, new_map.
    rewrite !bind_assoc. unfold bind at 1, modify.
    cbn [packages set_packages set_next set_maps set_vectors next maps vectors].
    rewrite !bind_assoc, bind_packages_at.
    cbn [packages set_packages]. rewrite lookup_insert_eq. simpl default.
    cbn [Package.files].
    rewrite (bind_Push _ _ []) by (simpl; apply lookup_insert_eq).
    rewrite bind_packages_at. simpl packages. rewrite lookup_insert_eq. simpl default.
    rewrite (Walk_kinds _ (ImportVisitor_acts env)).
    rewrite (ImportVisitor_loop env _ _ _ ∅) by (simpl; apply lookup_insert_eq).
    eexists. split; [reflexivity|].
    match goal with |- heap_ok ?s' /\ _ =>
      cut (heap_ok s' /\ view s' = <[name := ([] ++ [fname],
             foldl (add_import env) ∅ (import_values ks))]> (view s)) end.
    { intros [Hok' Hview]. split; [exact Hok'|]. split; [|done]. rewrite Hview.
      unfold view. by rewrite lookup_fmap, Hp. }
    apply (heap_step s _ name (Package.mk (next s) (S (next s)) false));
      simpl; try done; try lia.
    + by rewrite insert_insert_eq.
    + by rewrite insert_insert_eq.
    + intros n2 p2 Hne Hp2.
      destruct (heap_ok_lt s n2 p2 Hok Hp2). lia.
Qed.

(** ** Sequences of registrations *)

Lemma heap_ok_init : heap_ok init.
Proof.
  repeat split; try done; intros; simpl in *; by rewrite ?lookup_empty in *.
Qed.

Lemma view_init : view init = ∅.
Proof. unfold view. simpl. apply fmap_empty. Qed.

Lemma register_run env us : forall s,
  heap_ok s ->
  exists s',
    register env us s = Done tt s'
    /\ heap_ok s'
    /\ view s' = foldl (handle env) (view s) us
    /\ roots s' = roots s /\ files s' = files s
    /\ stdout s' = stdout s /\ stderr s' = stderr s /\ tick s' = tick s.
Proof.
  unfold register. induction us as [|[fname file] us IH]; intros s Hok.
  - exists s. split; [done|]. split; [done|]. by repeat split.
  - destruct (HandleFile_run env fname file s Hok)
      as (s1 & Hrun & Hok1 & Hview & Hr & Hf & Ho & He & Ht).
    destruct (IH s1 Hok1) as (s2 & Hrun2 & Hok2 & Hview2 & Hr2 & Hf2 & Ho2 & He2 & Ht2).
    exists s2. rewrite for_cons. simpl fst; simpl snd.
    rewrite (bind_Done _ _ _ _ _ Hrun). split; [done|]. split; [done|].
    split; [by rewrite Hview2, Hview|]. repeat split; congruence.
Qed.

Lemma heap_ok_vec_ok s : heap_ok s -> vec_ok s.
Proof. intros (Halloc & _) name p Hp. by destruct (Halloc name p Hp). Qed.

Lemma view_lookup s name p :
  packages s !! name = Some p ->
  files_of s p = unit_seq (view s) name
  /\ imports_of s p = import_map (view s) name.
Proof.
  intros Hp. unfold unit_seq, import_map, view. by rewrite lookup_fmap, Hp.
Qed.

Lemma view_is_Some s name :
  is_Some (packages s !! name) <-> is_Some (view s !! name).
Proof. unfold view. by rewrite lookup_fmap, fmap_is_Some. Qed.

Lemma handle_unit_seq env r u name :
  unit_seq (handle env r u) name
  = unit_seq r name ++ (if decide (Name_Name u.2 = name) then [u.1] else []).
Proof.
  unfold unit_seq, handle. destruct (decide (Name_Name u.2 = name)) as [<-|Hne].
  - rewrite lookup_insert_eq. simpl. by destruct (r !! Name_Name u.2).
  - rewrite lookup_insert_ne by done. by rewrite app_nil_r.
Qed.

Lemma handle_import_map env r u name :
  import_map (handle env r u) name
  = if decide (Name_Name u.2 = name)
    then foldl (add_import env) (import_map r name)
               (import_values (kinds (file_node u.2)))
    else import_map r name.
Proof.
  unfold import_map, handle. destruct (decide (Name_Name u.2 = name)) as [<-|Hne].
  - rewrite lookup_insert_eq. simpl. by destruct (r !! Name_Name u.2).
  - by rewrite lookup_insert_ne.
Qed.

Lemma handle_is_Some env r u name :
  is_Some (handle env r u !! name)
  <-> is_Some (r !! name) \/ Name_Name u.2 = name.
Proof.
  unfold handle. destruct (decide (Name_Name u.2 = name)) as [<-|Hne].
  - rewrite lookup_insert_eq. split; [by right|eauto].
  - rewrite lookup_insert_ne by done. tauto.
Qed.

Lemma registered_unit_seq env us : forall r name,
  unit_seq (foldl (handle env) r us) name
  = unit_seq r name ++ (units_in name us).*1.
Proof.
  induction us as [|u us IH]; intros r name; simpl.
  - by rewrite app_nil_r.
  - rewrite IH, handle_unit_seq. unfold units_in. rewrite filter_cons.
    destruct (decide (Name_Name u.2 = name)); [|by rewrite app_nil_r].
    by rewrite <- app_assoc.
Qed.

Lemma registered_is_Some env us : forall r name,
  is_Some (foldl (handle env) r us !! name)
  <-> is_Some (r !! name) \/ exists u, u ∈ us /\ Name_Name u.2 = name.
Proof.
  induction us as [|u us IH]; intros r name; simpl.
  - split; [by left|]. intros [?|(? & ?%elem_of_nil & _)]; done.
  - rewrite IH, handle_is_Some. split.
    + intros [[?|?]|(u' & ? & ?)]; [by left|right; exists u|right; exists u'].
      * split; [left|done].
      * split; [by right|done].
    + intros [?|(u' & [->|?]%elem_of_cons & ?)]; [by left; left|by left; right|].
      right. by exists u'.
Qed.

Lemma add_import_keys env vs : forall m x,
  is_Some (foldl (add_import env) m vs !! x)
  <-> is_Some (m !! x) \/ exists v, v ∈ vs /\ import_path env v = x.
Proof.
  induction vs as [|v vs IH]; intros m x; simpl.
  - split; [by left|]. intros [?|(? & ?%elem_of_nil & _)]; done.
  - rewrite IH. unfold add_import.
    assert (is_Some ((match m !! import_path env v with
                      | Some _ => m
                      | None => <[import_path env v := import_path env v]> m
                      end) !! x)
            <-> is_Some (m !! x) \/ import_path env v = x) as ->.
    { destruct (m !! import_path env v) eqn:Hv.
      - split; [by left|]. intros [?|<-]; [done|eauto].
      - destruct (decide (import_path env v = x)) as [->|Hne].
        + rewrite lookup_insert_eq. split; [by right|eauto].
        + rewrite lookup_insert_ne by done. tauto. }
    split.
    + intros [[?|?]|(v' & ? & ?)]; [by left|right; exists v|right; exists v'].
      * split; [left|done].
      * split; [by right|done].
    + intros [?|(v' & [->|?]%elem_of_cons & ?)]; [by left; left|by left; right|].
      right. by exists v'.
Qed.

Lemma add_import_values env vs : forall m,
  (forall k x, m !! k = Some x -> x = k) ->
  forall k x, foldl (add_import env) m vs !! k = Some x -> x = k.
Proof.
  induction vs as [|v vs IH]; intros m Hm; simpl; [done|].
  apply IH. unfold add_import. destruct (m !! import_path env v) eqn:Hv; [done|].
  intros k x. destruct (decide (import_path env v = k)) as [->|Hne].
  - rewrite lookup_insert_eq. congruence.
  - rewrite lookup_insert_ne by done. apply Hm.
Qed.

Lemma registered_import_keys env us : forall r name x,
  is_Some (import_map (foldl (handle env) r us) name !! x)
  <-> is_Some (import_map r name !! x)
      \/ exists u value,
           u ∈ us /\ Name_Name u.2 = name
           /\ value ∈ import_values (kinds (file_node u.2))
           /\ import_path env value = x.
Proof.
  induction us as [|u us IH]; intros r name x; simpl.
  - split; [by left|]. intros [?|(? & ? & ?%elem_of_nil & _)]; done.
  - rewrite IH, handle_import_map.
    destruct (decide (Name_Name u.2 = name)) as [Heq|Hne].
    + rewrite add_import_keys. split.
      * intros [[?|(v & ? & ?)]|(u' & v & ? & ?)]; [by left|right..].
        -- exists u, v. split; [left|done].
        -- exists u', v. split; [by right|done].
      * intros [?|(u' & v & [->|?]%elem_of_cons & ? & ? & ?)].
        -- by left; left.
        -- left; right. by exists v.
        -- right. by exists u', v.
    + split.
      * intros [?|(u' & v & ? & ?)]; [by left|right].
        exists u', v. split; [by right|done].
      * intros [?|(u' & v & [->|?]%elem_of_cons & ? & ?)]; [by left|done|].
        right. by exists u', v.
Qed.

Lemma registered_import_values env us : forall r name,
  (forall k x, import_map r name !! k = Some x -> x = k) ->
  forall k x, import_map (foldl (handle env) r us) name !! k = Some x -> x = k.
Proof.
  induction us as [|u us IH]; intros r name Hr; simpl; [done|].
  apply IH. rewrite handle_import_map. destruct (decide _); [|done].
  by apply add_import_values.
Qed.

(** ** [addRoot] and [FindMain] *)

Lemma MainCheckVisitor_acts : acts_by MainCheckVisitor_act.
Proof. intros v [k cs] s. by destruct k. Qed.

Lemma Split_cons s sep : exists p ps, strings.Split s sep = p :: ps.
Proof.
  induction s as [|c s (p & ps & IH)]; simpl; [eauto|].
  destruct (decide (c = sep)); [eauto|]. rewrite IH. eauto.
Qed.

Lemma addRoot_run filename s :
  addRoot filename s
  = Done tt (set_roots s (<[filename := target_name filename]> (roots s))).
Proof.
  unfold addRoot, target_name.
  destruct (Split_cons filename "."%char) as (p & ps & ->). done.
Qed.

Lemma set_roots_id s : set_roots s (roots s) = s.
Proof. by destruct s. Qed.

Lemma MainCheckVisitor_loop fname ks : forall s,
  for_ ks (MainCheckVisitor_act (mkMainCheckVisitor fname)) s
  = Done tt (if bool_decide (FuncDecl "main" ∈ ks)
             then set_roots s (<[fname := target_name fname]> (roots s))
             else s).
Proof.
  induction ks as [|k ks IH]; intros s.
  - done.
  - rewrite for_cons. destruct (decide (k = FuncDecl "main")) as [->|Hk].
    + rewrite bool_decide_eq_true_2 by left. simpl MainCheckVisitor_act.
      unfold bind. rewrite addRoot_run, IH. case_bool_decide; [|done].
      unfold set_roots; simpl. by rewrite insert_insert_eq.
    + assert (MainCheckVisitor_act (mkMainCheckVisitor fname) k s = Done tt s) as Hs.
      { destruct k as [|name|]; try done. simpl.
        rewrite bool_decide_eq_false_2; [done|]. by intros ->. }
      rewrite (bind_Done _ _ _ _ _ Hs), IH.
      rewrite (bool_decide_ext (FuncDecl "main" ∈ k :: ks) (FuncDecl "main" ∈ ks));
        [done|]. rewrite elem_of_cons. naive_solver.
Qed.

Lemma first_failure {A} (P : A -> Prop) `{forall x, Decision (P x)} l :
  ~ Forall P l ->
  exists pre x post, l = pre ++ x :: post /\ Forall P pre /\ ~ P x.
Proof.
  induction l as [|y l IH]; intros Hn; [by destruct Hn|].
  destruct (decide (P y)) as [Hy|Hy].
  - destruct IH as (pre & x & post & -> & Hpre & Hx).
    { intros Hl. apply Hn. by constructor. }
    exists (y :: pre), x, post. split; [done|]. split; [by constructor|done].
  - exists [], y, l. by repeat split.
Qed.

Lemma found_roots_cons env rs f fs :
  found_roots env rs (f :: fs)
  = found_roots env
      (if defines_main (tree_of (ParseFile env f FullParse))
       then <[f := target_name f]> rs else rs) fs.
Proof. done. Qed.

Lemma FindMain_loop env fs : forall s,
  Forall (has_tree env) fs ->
  for_ fs (fun fname =>
      r <- parser_ParseFile env fname FullParse;
      Walk_File (mkMainCheckVisitor fname) (file r)) s
  = Done tt (set_roots s (found_roots env (roots s) fs)).
Proof.
  induction fs as [|f fs IH]; intros s Hfs.
  - unfold for_; simpl. by rewrite set_roots_id.
  - apply Forall_cons in Hfs as [[t Ht] Hfs].
    rewrite for_cons, bind_assoc. unfold parser_ParseFile at 1. rewrite bind_ret.
    rewrite found_roots_cons. unfold tree_of at 1. rewrite Ht.
    unfold Walk_File, bind.
    rewrite (Walk_kinds _ MainCheckVisitor_acts), MainCheckVisitor_loop.
    rewrite IH by done. unfold defines_main. simpl default.
    by case_bool_decide.
Qed.

(** The loop of [FindMain] stops with a nil dereference at the first file
    whose parse yields no tree. *)
Lemma FindMain_loop_panic env pre f post s :
  Forall (has_tree env) pre -> ~ has_tree env f ->
  for_ (pre ++ f :: post) (fun fname =>
      r <- parser_ParseFile env fname FullParse;
      Walk_File (mkMainCheckVisitor fname) (file r)) s
  = Panic (set_roots s (found_roots env (roots s) pre)).
Proof.
  intros Hpre Hf. rewrite for_app.
  rewrite (bind_Done _ _ _ _ _ (FindMain_loop env pre s Hpre)).
  rewrite for_cons, bind_assoc. unfold parser_ParseFile at 1. rewrite bind_ret.
  unfold has_tree in Hf. destruct (file (ParseFile env f FullParse)) as [t|].
  - destruct Hf. by eexists.
  - done.
Qed.

Lemma FindMain_run env s :
  vec_ok s -> main_trees env s ->
  FindMain env s
  = Done tt (set_roots s
      (found_roots env (roots s)
         match packages s !! "main" with
         | Some main => files_of s main
         | None => []
         end)).
Proof.
  intros Hok Htrees. unfold FindMain. rewrite bind_gets. cbv beta.
  unfold main_trees in Htrees.
  destruct (packages s !! "main") as [main|] eqn:Hmain.
  - rewrite bind_deref by (by apply (Hok "main")). by apply FindMain_loop.
  - simpl. by rewrite set_roots_id.
Qed.

(** [FindMain] panics when the parse of a unit of the main package yields no
    tree. *)
Lemma FindMain_panic env s :
  vec_ok s -> ~ main_trees env s ->
  exists rs, FindMain env s = Panic (set_roots s rs).
Proof.
  intros Hok Htrees. unfold FindMain. rewrite bind_gets. cbv beta.
  unfold main_trees in Htrees.
  destruct (packages s !! "main") as [main|] eqn:Hmain; [|by destruct Htrees].
  rewrite bind_deref by (by apply (Hok "main")).
  destruct (first_failure _ _ Htrees) as (pre & f & post & -> & Hpre & Hf).
  eexists. by apply FindMain_loop_panic.
Qed.

Lemma found_roots_lookup env fs : forall rs f,
  found_roots env rs fs !! f
  = if bool_decide (f ∈ fs) && defines_main (tree_of (ParseFile env f FullParse))
    then Some (target_name f) else rs !! f.
Proof.
  induction fs as [|g fs IH]; intros rs f; [done|].
  rewrite found_roots_cons, IH.
  destruct (decide (g = f)) as [->|Hne].
  - rewrite (bool_decide_eq_true_2 (f ∈ f :: fs)) by left. simpl.
    destruct (defines_main _) eqn:Hd.
    + by rewrite andb_true_r, lookup_insert_eq, Tauto.if_same.
    + by rewrite andb_false_r.
  - rewrite (bool_decide_ext (f ∈ g :: fs) (f ∈ fs))
      by (rewrite elem_of_cons; naive_solver).
    destruct (bool_decide (f ∈ fs) && defines_main _); [done|].
    destruct (defines_main _); [by rewrite lookup_insert_ne|done].
Qed.

Lemma Split_before sep a : forall b,
  contains sep a = false ->
  strings.Split (a +:+ String sep b) sep = a :: strings.Split b sep.
Proof.
  induction a as [|c a IH]; intros b Ha; simpl in *.
  - by rewrite decide_True.
  - destruct (decide (c = sep)); [done|]. by rewrite IH.
Qed.

Lemma Split_none sep s :
  contains sep s = false -> strings.Split s sep = [s].
Proof.
  induction s as [|c s IH]; intros Hs; simpl in *; [done|].
  destruct (decide (c = sep)); [done|]. by rewrite IH.
Qed.

(** C3: [addRoot] records under the file name the part of the name before
    its first ['.']; the whole name when there is none. *)
Theorem addRoot_target filename s :
  addRoot filename s
  = Done tt (set_roots s (<[filename := target_name filename]> (roots s)))
  /\ (forall a b, filename = a +:+ "." +:+ b -> contains "."%char a = false ->
        target_name filename = a)
  /\ (contains "."%char filename = false -> target_name filename = filename)
  /\ target_name "main.go" = "main"
  /\ target_name "app.v2.go" = "app".
Proof.
  split; [apply addRoot_run|]. split; [|split; [|done]].
  - intros a b -> Ha. unfold target_name.
    change ("." +:+ b) with (String "."%char b). by rewrite Split_before.
  - intros Hs. unfold target_name. by rewrite Split_none.
Qed.

Lemma addRoot_target_witness :
  target_name "lib.util.go" = "lib" /\ target_name "Makefile" = "Makefile".
Proof.
  split.
  - apply (proj1 (proj2 (addRoot_target "lib.util.go" init)) "lib" "util.go");
      reflexivity.
  - apply (proj1 (proj2 (proj2 (addRoot_target "Makefile" init)))); reflexivity.
Defined.

(** ** What registration guarantees *)

Lemma elem_of_import_values ks value :
  value ∈ import_values ks <-> ImportSpec value ∈ ks.
Proof.
  unfold import_values. rewrite list_elem_of_omap. split.
  - intros (k & Hk & Hv). destruct k; try done. by injection Hv as ->.
  - intros Hk. by exists (ImportSpec value).
Qed.

Lemma import_map_empty name : import_map ∅ name = ∅.
Proof. unfold import_map. by rewrite lookup_empty. Qed.

Lemma unit_seq_empty name : unit_seq ∅ name = [].
Proof. unfold unit_seq. by rewrite lookup_empty. Qed.

Lemma registered_state env us :
  exists s,
    register env us init = Done tt s
    /\ heap_ok s
    /\ view s = foldl (handle env) ∅ us
    /\ roots s = ∅ /\ stdout s = [] /\ tick s = 0.
Proof.
  destruct (register_run env us init heap_ok_init)
    as (s & Hrun & Hok & Hview & Hr & _ & Ho & _ & Ht).
  exists s. rewrite view_init in Hview.
  split; [done|]. split; [done|]. split; [done|]. by rewrite Hr, Ho, Ht.
Qed.

(** C8, as the code has it: after any sequence of registrations the import
    map of every package holds exactly the import paths of the units of the
    package, each stored under itself. The name of the package is among them
    exactly when one of its units imports a path equal to that name. *)
Theorem registered_imports env us :
  exists s,
    register env us init = Done tt s
    /\ forall name p, packages s !! name = Some p ->
         (forall x,
            is_Some (imports_of s p !! x) <->
            exists u value,
              u ∈ us /\ Name_Name u.2 = name
              /\ ImportSpec value ∈ kinds (file_node u.2)
              /\ import_path env value = x)
         /\ (forall k x, imports_of s p !! k = Some x -> x = k).
Proof.
  destruct (registered_state env us) as (s & Hrun & Hok & Hview & _).
  exists s. split; [done|]. intros name p Hp.
  destruct (view_lookup s name p Hp) as [_ ->]. rewrite Hview. split.
  - intros x. rewrite registered_import_keys, import_map_empty, lookup_empty.
    split.
    + intros [[? [=]]|(u & value & ? & ? & ?%elem_of_import_values & ?)].
      by exists u, value.
    + intros (u & value & ? & ? & ? & ?). right. exists u, value.
      by rewrite elem_of_import_values.
  - apply registered_import_values. intros k x.
    by rewrite import_map_empty, lookup_empty.
Qed.

Lemma registered_imports_witness :
  exists s,
    register (Demo.env false []) (Demo.units ["util.go"; "util_test.go"]) init
    = Done tt s
    /\ (is_Some (imports_of s (Package.mk 1 2 false) !! "testing")
        <-> exists u value,
              u ∈ Demo.units ["util.go"; "util_test.go"]
              /\ Name_Name u.2 = "util"
              /\ ImportSpec value ∈ kinds (file_node u.2)
              /\ import_path (Demo.env false []) value = "testing")
    /\ forall k x, imports_of s (Package.mk 1 2 false) !! k = Some x -> x = k.
Proof.
  destruct (registered_imports (Demo.env false [])
              (Demo.units ["util.go"; "util_test.go"])) as (s & Hrun & H).
  exists s. split; [exact Hrun|].
  assert (packages s !! "util" = Some (Package.mk 1 2 false)) as Hp.
  { replace s with (final (register (Demo.env false [])
                             (Demo.units ["util.go"; "util_test.go"]) init))
      by (by rewrite Hrun).
    vm_compute. reflexivity. }
  destruct (H "util" (Package.mk 1 2 false) Hp) as [Hkeys Hvals].
  split; [apply Hkeys|exact Hvals].
Defined.

(** C8 as worded fails: nothing keeps a unit of package log from
    importing a path that reads log. *)
Lemma self_import_counterexample :
  ~ (forall env us s name p,
       register env us init = Done tt s ->
       packages s !! name = Some p ->
       imports_of s p !! name = None).
Proof.
  intros H.
  specialize (H (Demo.env false []) (Demo.units ["log.go"])
                (final (register (Demo.env false []) (Demo.units ["log.go"]) init))
                "log" (Package.mk 1 2 false)).
  vm_compute in H. by specialize (H eq_refl eq_refl).
Qed.

(** ** What [PrintFList] guarantees *)

Lemma elem_of_listed s order f :
  f ∈ listed s order <-> exists name p, (name, p) ∈ order /\ f ∈ files_of s p.
Proof.
  unfold listed. rewrite list_elem_of_bind. split.
  - intros ([name p] & Hf & Hin). by exists name, p.
  - intros (name & p & Hin & Hf). by exists (name, p).
Qed.

Lemma elem_of_fresh_listed env s n f :
  range_ok env ->
  f ∈ fresh ∅ (listed s (range_order env Package n (packages s)))
  <-> unit_of s f.
Proof.
  intros Hr. rewrite elem_of_fresh, elem_of_listed. unfold unit_of. split.
  - intros [(name & p & Hin & Hf) _]. exists name, p.
    split; [|done]. by apply elem_of_range in Hin.
  - intros (name & p & Hp & Hf). split; [|done]. exists name, p.
    split; [|done]. by apply elem_of_range.
Qed.

(** C5, as the code has it: [PrintFList] prints every unit of every
    registered package exactly once. The units come package by package in
    the order in which the runtime enumerates [packages] in this [range]
    statement, those of one package in the order of its unit sequence, a
    unit already printed being skipped. *)
Theorem PrintFList_once env s :
  range_ok env -> vec_ok s ->
  exists L,
    PrintFList env s
    = Done tt (emit s (Print "GOFILES = " :: (file_item <$> L) ++ [end_line])
                 (S (tick s)))
    /\ L = fresh ∅ (listed s (range_order env Package (tick s) (packages s)))
    /\ range_order env Package (tick s) (packages s)
       ≡ₚ map_to_list (packages s)
    /\ NoDup L
    /\ forall f, f ∈ L <-> unit_of s f.
Proof.
  intros Hr Hok.
  exists (fresh ∅ (listed s (range_order env Package (tick s) (packages s)))).
  split; [by apply PrintFList_run|]. split; [done|]. split; [apply Hr|].
  split; [apply NoDup_fresh|]. intros f. by apply elem_of_fresh_listed.
Qed.

Lemma PrintFList_once_witness :
  exists L,
    PrintFList (Demo.env_backwards false Demo.args) (Demo.loaded Demo.args)
    = Done tt (emit (Demo.loaded Demo.args)
                 (Print "GOFILES = " :: (file_item <$> L) ++ [end_line]) 1)
    /\ L = fresh ∅ (listed (Demo.loaded Demo.args)
                      (reverse (map_to_list
                                  (packages (Demo.loaded Demo.args)))))
    /\ NoDup L
    /\ forall f, f ∈ L <-> unit_of (Demo.loaded Demo.args) f.
Proof.
  destruct (PrintFList_once (Demo.env_backwards false Demo.args)
              (Demo.loaded Demo.args))
    as (L & Hrun & HL & _ & Hnd & Hin).
  - intros V n m. apply reverse_Permutation.
  - apply (bool_decide_unpack _). vm_compute. exact I.
  - exists L. split; [exact Hrun|]. split; [exact HL|].
    split; [exact Hnd | exact Hin].
Defined.

Global Instance file_item_inj : Inj (=) (=) file_item.
Proof. by intros x y [=]. Qed.

Lemma listed_view s order :
  (forall name p, (name, p) ∈ order -> packages s !! name = Some p) ->
  listed s order = order.*1 ≫= unit_seq (view s).
Proof.
  induction order as [|[name p] order IH]; intros Hin; [done|].
  unfold listed. rewrite fmap_cons, !bind_cons. simpl.
  destruct (view_lookup s name p) as [-> _]; [apply Hin; left|].
  f_equal. apply IH. intros name' p' H'. apply Hin. by right.
Qed.

Lemma view_keys s : (map_to_list (packages s)).*1 = (map_to_list (view s)).*1.
Proof.
  unfold view. rewrite map_to_list_fmap, <- list_fmap_compose.
  apply list_fmap_ext. by intros i [name p] _.
Qed.

(** C5 as worded fails: the units do not come in discovery order. For the
    arguments main.go, util.go, common.go, where util.go is of another
    package than the other two, no enumeration order of [packages] makes
    [PrintFList] print the three names in the order given. *)
Lemma discovery_order_counterexample :
  ~ (exists order,
       (forall V n m, order V n m ≡ₚ map_to_list m)
       /\ let env := mkEnv false false [] [] [] Demo.ParseFile (fun p => p) order in
          let us := Demo.units ["main.go"; "util.go"; "common.go"] in
          forall s, register env us init = Done tt s ->
          exists t,
            PrintFList env s
            = Done tt (emit s (Print "GOFILES = " :: (file_item <$> us.*1)
                                 ++ [end_line]) t)).
Proof.
  intros (order & Hr & H). cbv zeta in H.
  set (env := mkEnv false false [] [] [] Demo.ParseFile (fun p => p) order) in *.
  set (us := Demo.units ["main.go"; "util.go"; "common.go"]) in *.
  assert (range_ok env) as Hok by exact Hr.
  destruct (registered_state env us) as (s & Hrun & Hheap & Hview & _ & _ & Ht).
  destruct (H s Hrun) as [t Hout].
  rewrite PrintFList_run in Hout by (done || by apply heap_ok_vec_ok).
  injection Hout as Hout _.
  apply (f_equal (drop (length (stdout s)))) in Hout.
  rewrite !drop_app_length in Hout. injection Hout as Hout.
  change [file_item "main.go"; file_item "util.go"; file_item "common.go";
          end_line]
    with ((file_item <$> ["main.go"; "util.go"; "common.go"]) ++ [end_line])
    in Hout.
  apply app_inv_tail in Hout. apply (inj _) in Hout.
  set (o := order Package (tick s) (packages s)) in *.
  rewrite (listed_view s o) in Hout
    by (intros name p Hin; by apply (elem_of_range env) in Hin).
  assert (o.*1 ≡ₚ ["main"; "util"]) as Hkeys.
  { unfold o. rewrite (Hr Package (tick s) (packages s)), view_keys, Hview.
    vm_compute. reflexivity. }
  rewrite Hview in Hout.
  apply Permutation_sym, Permutation_length_2_inv in Hkeys as [Hk|Hk];
    rewrite Hk in Hout; vm_compute in Hout; discriminate Hout.
Qed.

(** ** Counting occurrences *)

Lemma count_app {A} `{EqDecision A} (x : A) l1 l2 :
  count x (l1 ++ l2) = count x l1 + count x l2.
Proof. unfold count. by rewrite filter_app, length_app. Qed.

Lemma count_cons {A} `{EqDecision A} (x y : A) l :
  count x (y :: l) = (if decide (x = y) then 1 else 0) + count x l.
Proof. unfold count. rewrite filter_cons. by destruct (decide (x = y)). Qed.

Lemma count_pos {A} `{EqDecision A} (x : A) l : x ∈ l -> 1 <= count x l.
Proof.
  induction 1 as [y l|y z l _ IH]; rewrite count_cons.
  - rewrite decide_True by done. lia.
  - lia.
Qed.

Lemma count_zero {A} `{EqDecision A} (x : A) l : x ∉ l -> count x l = 0.
Proof.
  induction l as [|y l IH]; [done|]. rewrite not_elem_of_cons, count_cons.
  intros [Hne Hl]. rewrite decide_False by done. by rewrite IH.
Qed.

Lemma count_NoDup {A} `{EqDecision A} (x : A) l :
  NoDup l -> x ∈ l -> count x l = 1.
Proof.
  induction 1 as [|y l Hy _ IH]; [by intros ?%elem_of_nil|].
  rewrite count_cons, elem_of_cons. intros [->|Hx].
  - rewrite decide_True by done. by rewrite count_zero.
  - rewrite decide_False by (intros ->; done). by rewrite IH.
Qed.

Lemma count_fmap {A B} `{EqDecision A, EqDecision B} (f : A -> B)
    `{!Inj (=) (=) f} x l :
  count (f x) (f <$> l) = count x l.
Proof.
  induction l as [|y l IH]; [done|]. rewrite fmap_cons, !count_cons, IH.
  destruct (decide (x = y)) as [->|Hne].
  - by rewrite decide_True.
  - rewrite decide_False; [done|]. by intros ?%(inj f).
Qed.

Lemma count_bind_two {A B} `{EqDecision B} (g : A -> list B) x f1 f2 fs :
  f1 ∈ fs -> f2 ∈ fs -> f1 <> f2 -> x ∈ g f1 -> x ∈ g f2 ->
  2 <= count x (fs ≫= g).
Proof.
  intros H1 H2 Hne Hx1 Hx2.
  assert (forall f l, f ∈ l -> x ∈ g f -> 1 <= count x (l ≫= g)) as Hone.
  { intros f l Hf Hx. apply count_pos, list_elem_of_bind. eauto. }
  induction fs as [|f fs IH]; [by apply elem_of_nil in H1|].
  rewrite bind_cons, count_app.
  apply elem_of_cons in H1 as [->|H1]; apply elem_of_cons in H2 as [->|H2].
  - done.
  - pose proof (count_pos x _ Hx1). pose proof (Hone f2 fs H2 Hx2). lia.
  - pose proof (count_pos x _ Hx2). pose proof (Hone f1 fs H1 Hx1). lia.
  - specialize (IH H1 H2). lia.
Qed.

(** ** Roots that share a target name *)

Lemma vec_ok_set_roots s rs : vec_ok s -> vec_ok (set_roots s rs).
Proof. done. Qed.

Lemma elem_of_root_files s fs f :
  f ∈ root_files s fs <-> is_Some (roots s !! f) /\ f ∈ fs.
Proof. unfold root_files. by rewrite list_elem_of_filter. Qed.

Lemma root_head_in_rules env s main common fs rules f app :
  Forall2 (is_root_rule env s main common) fs rules ->
  f ∈ fs -> roots s !! f = Some app ->
  root_head app f ∈ concat rules.
Proof.
  induction 1 as [|g rule fs rules Hrule _ IH]; [by intros ?%elem_of_nil|].
  simpl. rewrite elem_of_app, elem_of_cons. intros [->|Hf] Hroot.
  - left. destruct Hrule as (app' & deps & Hg & -> & _).
    assert (app' = app) as -> by congruence. left.
  - right. by apply IH.
Qed.

(** C9: two different files of the main package that both declare main and
    have the same name up to the first ['.'] are two keys of [roots] with the
    same target name, and [PrintDeps] prints for each of them the line and
    the rule of that one target name. [FindMain] gets that far when the full
    parse of every unit of the main package yields a tree. *)
Theorem same_target_roots env s main f1 f2 :
  range_ok env -> vec_ok s -> main_trees env s ->
  packages s !! "main" = Some main ->
  f1 ∈ files_of s main -> f2 ∈ files_of s main -> f1 <> f2 ->
  defines_main (tree_of (ParseFile env f1 FullParse)) = true ->
  defines_main (tree_of (ParseFile env f2 FullParse)) = true ->
  target_name f1 = target_name f2 ->
  exists s1 front rules t,
    FindMain env s = Done tt s1
    /\ roots s1 !! f1 = Some (target_name f1)
    /\ roots s1 !! f2 = Some (target_name f1)
    /\ PrintDeps env s1
       = Done tt (emit s1
           (front ++ app_lines s1 (files_of s main) ++ concat rules) t)
    /\ 2 <= count (app_line (target_name f1)) (app_lines s1 (files_of s main))
    /\ Forall2 (is_root_rule env s1 main (common_files s1 (files_of s main)))
               (root_files s1 (files_of s main)) rules
    /\ root_head (target_name f1) f1 ∈ concat rules
    /\ root_head (target_name f1) f2 ∈ concat rules
    /\ root_head (target_name f1) f1 <> root_head (target_name f1) f2.
Proof.
  intros Hr Hok Htrees Hmain H1 H2 Hne Hd1 Hd2 Ht.
  pose proof (FindMain_run env s Hok Htrees) as Hfind. rewrite Hmain in Hfind.
  set (s1 := set_roots s (found_roots env (roots s) (files_of s main))) in *.
  assert (roots s1 !! f1 = Some (target_name f1)) as Hr1.
  { unfold s1. simpl. rewrite found_roots_lookup, Hd1.
    by rewrite bool_decide_eq_true_2. }
  assert (roots s1 !! f2 = Some (target_name f1)) as Hr2.
  { unfold s1. simpl. rewrite found_roots_lookup, Hd2, Ht.
    by rewrite bool_decide_eq_true_2. }
  destruct (PrintDeps_structure env s1 Hr (vec_ok_set_roots s _ Hok))
    as (order & prules & lines & rrules & t & Hrun & _ & _ & HM).
  change (packages s1) with (packages s) in HM. rewrite Hmain in HM.
  change (files_of s1 main) with (files_of s main) in HM.
  destruct HM as [-> HR].
  exists s1, (concat prules), rrules, t.
  split; [done|]. split; [done|]. split; [done|]. split; [done|].
  split; [|split; [done|split; [|split]]].
  - apply (count_bind_two _ _ f1 f2); try done.
    + rewrite Hr1. left.
    + rewrite Hr2. left.
  - apply (root_head_in_rules _ _ _ _ _ _ _ _ HR); [|done].
    apply elem_of_root_files. eauto.
  - apply (root_head_in_rules _ _ _ _ _ _ _ _ HR); [|done].
    apply elem_of_root_files. eauto.
  - intros [=]. done.
Qed.

Lemma same_target_roots_witness :
  exists s1 front rules t,
    FindMain (Demo.env false Demo.args) (Demo.scanned Demo.args)
    = Done tt s1
    /\ roots s1 !! "main.go" = Some "main"
    /\ roots s1 !! "main.v2.go" = Some "main"
    /\ PrintDeps (Demo.env false Demo.args) s1
       = Done tt (emit s1
           (front ++ app_lines s1 ["main.go"; "common.go"; "main.v2.go"]
                  ++ concat rules) t)
    /\ 2 <= count (app_line "main")
                  (app_lines s1 ["main.go"; "common.go"; "main.v2.go"]).
Proof.
  destruct (same_target_roots (Demo.env false Demo.args)
              (Demo.scanned Demo.args) (Package.mk 1 2 false)
              "main.go" "main.v2.go")
    as (s1 & front & rules & t & Hfind & Hr1 & Hr2 & Hrun & Hcount & _).
  - intros V n m. reflexivity.
  - apply (bool_decide_unpack _). vm_compute. exact I.
  - apply (bool_decide_unpack _). vm_compute. exact I.
  - vm_compute. reflexivity.
  - apply (bool_decide_unpack _). vm_compute. exact I.
  - apply (bool_decide_unpack _). vm_compute. exact I.
  - discriminate.
  - vm_compute. reflexivity.
  - vm_compute. reflexivity.
  - vm_compute. reflexivity.
  - exists s1, front, rules, t. repeat split; assumption.
Defined.

(** ** A file name given twice *)

Lemma count_filter {A} `{EqDecision A} (P : A -> Prop) `{forall x, Decision (P x)}
    x l :
  P x -> count x (filter P l) = count x l.
Proof.
  intros Hx. induction l as [|y l IH]; [done|].
  rewrite filter_cons, count_cons. destruct (decide (P y)).
  - by rewrite count_cons, IH.
  - rewrite decide_False by (by intros ->). done.
Qed.

Lemma count_pos_inv {A} `{EqDecision A} (x : A) l : 1 <= count x l -> x ∈ l.
Proof.
  intros Hc. destruct (decide (x ∈ l)) as [|Hn]; [done|].
  rewrite count_zero in Hc by done. lia.
Qed.

Lemma units_in_units_of env name l :
  (units_in name (units_of env l)).*1
  = filter (fun f => Name_Name (tree_of (ParseFile env f ImportsOnly)) = name) l.
Proof.
  unfold units_in, units_of. induction l as [|f l IH]; [done|].
  rewrite fmap_cons, !filter_cons. simpl.
  destruct (decide _); [|done]. by rewrite fmap_cons, IH.
Qed.

Lemma count_file_item_pkg_rule env s np rule fname :
  is_pkg_rule env s np rule ->
  count (file_item fname) rule = count fname (files_of s np.2).
Proof.
  intros (deps & -> & _).
  rewrite count_cons, !count_app, (count_fmap file_item).
  rewrite decide_False by discriminate.
  rewrite (count_zero _ (dep_item <$> deps)), (count_zero _ [end_line]); [lia| |].
  - rewrite list_elem_of_singleton. discriminate.
  - rewrite list_elem_of_fmap. intros (? & [=] & _).
Qed.

Lemma count_file_item_root_rule env s main common f rule fname :
  is_root_rule env s main common f rule ->
  count (file_item fname) rule = count fname common.
Proof.
  intros (app & deps & _ & -> & _).
  rewrite count_cons, !count_app, (count_fmap file_item).
  rewrite decide_False by discriminate.
  rewrite (count_zero _ (dep_item <$> deps)), (count_zero _ [end_line]); [lia| |].
  - rewrite list_elem_of_singleton. discriminate.
  - rewrite list_elem_of_fmap. intros (? & [=] & _).
Qed.

(** The main package of a registry read as a map. *)
Lemma main_trees_view env s :
  main_trees env s <-> Forall (has_tree env) (unit_seq (view s) "main").
Proof.
  unfold main_trees, unit_seq, view. rewrite lookup_fmap.
  destruct (packages s !! "main") as [main|]; simpl; [done|].
  split; [by constructor|done].
Qed.

(** Among the units of the files [l], those of the main package are the
    files of [l] whose package clause names main. *)
Lemma trees_units env l :
  Forall (reparses env) l
  <-> Forall (has_tree env)
        (unit_seq (foldl (handle env) ∅ (units_of env l)) "main").
Proof.
  rewrite registered_unit_seq, unit_seq_empty, units_in_units_of. simpl.
  rewrite !Forall_forall. unfold reparses. split.
  - intros H f [Hname Hf]%list_elem_of_filter. by apply H.
  - intros H f Hf Hname. apply H. by apply list_elem_of_filter.
Qed.

Lemma loaded_state env us :
  Forall (has_tree env) (unit_seq (foldl (handle env) ∅ us) "main") ->
  exists s0,
    register env us init = Done tt s0
    /\ bind (register env us) (fun _ => FindMain env) init
       = Done tt (set_roots s0
           (found_roots env ∅
              match packages s0 !! "main" with
              | Some main => files_of s0 main
              | None => []
              end))
    /\ heap_ok s0
    /\ view s0 = foldl (handle env) ∅ us.
Proof.
  intros Htrees.
  destruct (registered_state env us) as (s0 & Hrun & Hok & Hview & Hr & _).
  exists s0. split; [done|]. split; [|done].
  rewrite (bind_Done _ _ _ _ _ Hrun), FindMain_run.
  - by rewrite Hr.
  - by apply heap_ok_vec_ok.
  - apply main_trees_view. by rewrite Hview.
Qed.

(** C10: a file name given twice is twice in the unit sequence of its
    package. [PrintFList] still prints it once; the rule of its package
    names it twice, and when it is a common file of the main package the
    rule of every root names it twice. The run reaches the passes when the
    second parse of every file of package main yields a tree. *)
Theorem duplicate_input env args fname :
  range_ok env ->
  Forall (reparses env) args ->
  count fname args = 2 ->
  exists s p,
    bind (register env (units_of env args)) (fun _ => FindMain env) init
    = Done tt s
    /\ packages s !! Name_Name (tree_of (ParseFile env fname ImportsOnly)) = Some p
    /\ count fname (files_of s p) = 2
    /\ (exists L t,
          PrintFList env s
          = Done tt (emit s (Print "GOFILES = " :: (file_item <$> L)
                               ++ [end_line]) t)
          /\ count fname L = 1)
    /\ (exists order prules lines rrules t,
          PrintDeps env s
          = Done tt (emit s (concat prules ++ lines ++ concat rrules) t)
          /\ order ≡ₚ map_to_list (packages s)
          /\ Forall2 (is_pkg_rule env s) (others order) prules
          /\ (Name_Name (tree_of (ParseFile env fname ImportsOnly)) <> "main" ->
                (Name_Name (tree_of (ParseFile env fname ImportsOnly)), p)
                  ∈ others order
                /\ forall rule,
                     is_pkg_rule env s
                       (Name_Name (tree_of (ParseFile env fname ImportsOnly)), p)
                       rule ->
                     count (file_item fname) rule = 2)
          /\ (Name_Name (tree_of (ParseFile env fname ImportsOnly)) = "main" ->
              roots s !! fname = None ->
                Forall2 (is_root_rule env s p (common_files s (files_of s p)))
                        (root_files s (files_of s p)) rrules
                /\ forall f rule,
                     is_root_rule env s p (common_files s (files_of s p)) f rule ->
                     count (file_item fname) rule = 2)).
Proof.
  intros Hr Htrees Hcount.
  set (name := Name_Name (tree_of (ParseFile env fname ImportsOnly))).
  destruct (loaded_state env (units_of env args))
    as (s0 & _ & Hrun & Hok & Hview); [by apply trees_units|].
  set (s := set_roots s0 _) in Hrun.
  assert (vec_ok s) as Hvec by (by apply vec_ok_set_roots, heap_ok_vec_ok).
  assert (fname ∈ args) as Hin.
  { destruct (decide (fname ∈ args)) as [|Hn]; [done|].
    rewrite count_zero in Hcount by done. lia. }
  assert (is_Some (packages s0 !! name)) as [p Hp].
  { rewrite view_is_Some, Hview, registered_is_Some. right.
    exists (fname, tree_of (ParseFile env fname ImportsOnly)). split; [|done].
    unfold units_of.
    by apply (list_elem_of_fmap_2
                (fun f => (f, tree_of (ParseFile env f ImportsOnly))) args). }
  assert (files_of s p = filter
            (fun f => Name_Name (tree_of (ParseFile env f ImportsOnly)) = name) args)
    as Hfiles.
  { change (files_of s p) with (files_of s0 p).
    destruct (view_lookup s0 name p Hp) as [-> _].
    by rewrite Hview, registered_unit_seq, unit_seq_empty, units_in_units_of. }
  assert (count fname (files_of s p) = 2) as Hfc.
  { rewrite Hfiles, count_filter by done. done. }
  exists s, p. split; [done|]. split; [done|]. split; [done|]. split.
  - eexists _, _. split; [by apply PrintFList_run|].
    apply count_NoDup; [apply NoDup_fresh|].
    rewrite elem_of_fresh. split; [|done]. apply elem_of_listed.
    exists name, p. split.
    + by apply elem_of_range.
    + apply count_pos_inv. lia.
  - destruct (PrintDeps_structure env s Hr Hvec)
      as (order & prules & lines & rrules & t & Hp' & Hperm & HP & HM).
    exists order, prules, lines, rrules, t.
    split; [done|]. split; [done|]. split; [done|]. split.
    + intros Hne. split.
      * unfold others. rewrite list_elem_of_filter. split; [done|].
        rewrite Hperm. by apply elem_of_map_to_list.
      * intros rule Hrule.
        by rewrite (count_file_item_pkg_rule _ _ _ _ _ Hrule).
    + intros Hmain Hroot. change (packages s) with (packages s0) in HM.
      fold name in Hmain. rewrite Hmain in Hp. rewrite Hp in HM.
      destruct HM as [_ HR]. split; [done|]. intros f rule Hrule.
      rewrite (count_file_item_root_rule _ _ _ _ _ _ _ Hrule).
      unfold common_files. by rewrite count_filter.
Qed.

Lemma duplicate_input_witness :
  exists s p,
    bind (register (Demo.env false Demo.twice)
            (units_of (Demo.env false Demo.twice) Demo.twice))
         (fun _ => FindMain (Demo.env false Demo.twice)) init
    = Done tt s
    /\ packages s !! "main" = Some p
    /\ count "common.go" (files_of s p) = 2.
Proof.
  destruct (duplicate_input (Demo.env false Demo.twice) Demo.twice "common.go")
    as (s & p & Hrun & Hp & Hc & _).
  - intros V n m. reflexivity.
  - apply (bool_decide_unpack _). vm_compute. exact I.
  - vm_compute. reflexivity.
  - exists s, p. split; [exact Hrun|]. split; [exact Hp|exact Hc].
Defined.

(** ** The passes under two enumeration orders *)

Lemma is_pkg_rule_plain env s np rule :
  is_pkg_rule env s np rule -> rule ≡ₚ plain_pkg_rule env s np.
Proof. intros (deps & -> & Hd). unfold plain_pkg_rule. by rewrite Hd. Qed.

Lemma is_root_rule_plain env s main common f rule :
  is_root_rule env s main common f rule ->
  rule ≡ₚ plain_root_rule env s main common f.
Proof.
  intros (app & deps & Hf & -> & Hd). unfold plain_root_rule.
  by rewrite Hf, Hd.
Qed.

Lemma concat_Forall2_Permutation {A B} (R : A -> list B -> Prop)
    (f : A -> list B) xs rs :
  (forall x r, R x r -> r ≡ₚ f x) ->
  Forall2 R xs rs -> concat rs ≡ₚ xs ≫= f.
Proof.
  intros HR. induction 1 as [|x r xs rs Hxr _ IH]; [done|].
  rewrite bind_cons. cbn [concat]. by rewrite (HR x r Hxr), IH.
Qed.

Lemma bind_Permutation_ext {A B} (f g : A -> list B) l1 l2 :
  (forall x, f x = g x) -> l1 ≡ₚ l2 -> l1 ≫= f ≡ₚ l2 ≫= g.
Proof.
  intros Hfg ->. induction l2 as [|x l IH]; [done|].
  by rewrite !bind_cons, Hfg, IH.
Qed.

Lemma emit_inj s e1 t1 e2 t2 : emit s e1 t1 = emit s e2 t2 -> e1 = e2.
Proof.
  intros H. apply (f_equal stdout) in H. rewrite !stdout_emit in H.
  by apply app_inv_head in H.
Qed.

Lemma Done_emit_inj s e1 t1 e2 t2 :
  Done tt (emit s e1 t1) = Done tt (emit s e2 t2) -> e1 = e2.
Proof. intros H. apply (emit_inj s e1 t1 e2 t2). congruence. Qed.

Section TwoOrders.

(** Two runs on the same state, in the same show-needed mode, under two
    runtimes. *)
Context (env1 env2 : Env) (s : State) (pre ppost : string).
Hypothesis Hr1 : range_ok env1.
Hypothesis Hr2 : range_ok env2.
Hypothesis Hn : showNeeded env1 = showNeeded env2.
Hypothesis Hok : vec_ok s.

Lemma plain_pkg_rule_ext np :
  plain_pkg_rule env1 s np = plain_pkg_rule env2 s np.
Proof. unfold plain_pkg_rule, shown_deps. by rewrite Hn. Qed.

Lemma plain_root_rule_ext main common f :
  plain_root_rule env1 s main common f = plain_root_rule env2 s main common f.
Proof. unfold plain_root_rule, root_shown_deps. by rewrite Hn. Qed.

Lemma PrintDeps_Permutation :
  exists d1 d2 t1 t2,
    PrintDeps env1 s = Done tt (emit s d1 t1)
    /\ PrintDeps env2 s = Done tt (emit s d2 t2)
    /\ d1 ≡ₚ d2.
Proof.
  destruct (PrintDeps_structure env1 s Hr1 Hok)
    as (o1 & p1 & l1 & r1 & t1 & Hrun1 & Ho1 & HP1 & HM1).
  destruct (PrintDeps_structure env2 s Hr2 Hok)
    as (o2 & p2 & l2 & r2 & t2 & Hrun2 & Ho2 & HP2 & HM2).
  eexists _, _, t1, t2. split; [exact Hrun1|]. split; [exact Hrun2|].
  assert (concat p1 ≡ₚ concat p2) as ->.
  { rewrite (concat_Forall2_Permutation _ (plain_pkg_rule env1 s) _ _
               (is_pkg_rule_plain env1 s) HP1).
    rewrite (concat_Forall2_Permutation _ (plain_pkg_rule env2 s) _ _
               (is_pkg_rule_plain env2 s) HP2).
    apply bind_Permutation_ext; [apply plain_pkg_rule_ext|].
    unfold others. by rewrite Ho1, Ho2. }
  f_equiv. destruct (packages s !! "main") as [main|].
  - destruct HM1 as [-> HR1]. destruct HM2 as [-> HR2]. f_equiv.
    rewrite (concat_Forall2_Permutation _ _ _ _
               (is_root_rule_plain env1 s main _) HR1).
    rewrite (concat_Forall2_Permutation _ _ _ _
               (is_root_rule_plain env2 s main _) HR2).
    apply bind_Permutation_ext; [|done]. apply plain_root_rule_ext.
  - destruct HM1 as [-> ->]. by destruct HM2 as [-> ->].
Qed.

Section SameOrder.

Hypothesis Ho : same_order env1 env2.

Lemma targets_ext order :
  forall t, targets env1 s t order = targets env2 s t order.
Proof.
  induction order as [|[name p] order IH]; intros t; [done|].
  simpl. by rewrite Ho, IH.
Qed.

Lemma pkg_rules_ext order :
  forall t, pkg_rules env1 s t order = pkg_rules env2 s t order.
Proof.
  induction order as [|[name p] order IH]; intros t; [done|].
  simpl. unfold pkg_rule. by rewrite Ho, Hn, !IH.
Qed.

Lemma root_deps_ext l :
  forall d, root_deps env1 s d l = root_deps env2 s d l.
Proof.
  induction l as [|x l IH]; intros d; [done|].
  simpl. by rewrite Hn, !IH.
Qed.

Lemma root_rules_ext main common fs :
  forall t, root_rules env1 s t main common fs
            = root_rules env2 s t main common fs.
Proof.
  induction fs as [|f fs IH]; intros t; [done|].
  simpl. unfold root_rule. by rewrite Ho, root_deps_ext, !IH.
Qed.

End SameOrder.

(** C7, as the code has it: what a pass prints is a function of the state
    and of the order in which the runtime enumerates the maps. Under any two
    enumeration orders a pass makes the same print calls the same number of
    times, in an order that may differ; when the two enumeration orders agree
    the output is the same. *)
Theorem passes_up_to_enumeration :
  exists L1 L2 F1 F2 d1 d2,
    (exists t, PrintNeeded env1 pre ppost s
               = Done tt (emit s (Print pre :: (needed_item ppost <$> L1)
                                    ++ [Print LF]) t))
    /\ (exists t, PrintNeeded env2 pre ppost s
                  = Done tt (emit s (Print pre :: (needed_item ppost <$> L2)
                                       ++ [Print LF]) t))
    /\ L1 ≡ₚ L2
    /\ (exists t, PrintFList env1 s
                  = Done tt (emit s (Print "GOFILES = " :: (file_item <$> F1)
                                       ++ [end_line]) t))
    /\ (exists t, PrintFList env2 s
                  = Done tt (emit s (Print "GOFILES = " :: (file_item <$> F2)
                                       ++ [end_line]) t))
    /\ F1 ≡ₚ F2
    /\ (exists t, PrintDeps env1 s = Done tt (emit s d1 t))
    /\ (exists t, PrintDeps env2 s = Done tt (emit s d2 t))
    /\ d1 ≡ₚ d2
    /\ (same_order env1 env2 -> L1 = L2 /\ F1 = F2 /\ d1 = d2).
Proof.
  destruct PrintDeps_Permutation as (d1 & d2 & td1 & td2 & Hd1 & Hd2 & Hd).
  eexists _, _, _, _, d1, d2.
  split; [eexists; apply PrintNeeded_run|].
  split; [eexists; apply PrintNeeded_run|].
  split.
  { apply NoDup_Permutation; [apply NoDup_fresh..|].
    intros x. by rewrite !elem_of_needed. }
  split; [eexists; by apply PrintFList_run|].
  split; [eexists; by apply PrintFList_run|].
  split.
  { apply NoDup_Permutation; [apply NoDup_fresh..|].
    intros x. by rewrite !elem_of_fresh_listed. }
  split; [eauto|]. split; [eauto|]. split; [done|].
  intros Ho. split; [|split].
  - by rewrite (targets_ext Ho), Ho.
  - by rewrite Ho.
  - rewrite PrintDeps_run in Hd1, Hd2 by done.
    apply Done_emit_inj in Hd1, Hd2. rewrite <- Hd1, <- Hd2.
    unfold main_part. rewrite (pkg_rules_ext Ho), Ho.
    destruct (packages s !! "main"); [|done].
    by rewrite (root_rules_ext Ho).
Qed.

End TwoOrders.

Lemma forwards_ok need l : range_ok (Demo.env need l).
Proof. intros V n m. reflexivity. Qed.

Lemma backwards_ok need l : range_ok (Demo.env_backwards need l).
Proof. intros V n m. apply reverse_Permutation. Qed.

Lemma passes_up_to_enumeration_witness :
  exists L1 L2 F1 F2 d1 d2,
    (exists t, PrintNeeded (Demo.env true Demo.args) ".EXTERNAL: " ".${O}"
                 (Demo.loaded Demo.args)
               = Done tt (emit (Demo.loaded Demo.args)
                   (Print ".EXTERNAL: " :: (needed_item ".${O}" <$> L1)
                      ++ [Print LF]) t))
    /\ (exists t, PrintNeeded (Demo.env_backwards true Demo.args)
                    ".EXTERNAL: " ".${O}" (Demo.loaded Demo.args)
                  = Done tt (emit (Demo.loaded Demo.args)
                      (Print ".EXTERNAL: " :: (needed_item ".${O}" <$> L2)
                         ++ [Print LF]) t))
    /\ L1 ≡ₚ L2
    /\ (exists t, PrintFList (Demo.env true Demo.args) (Demo.loaded Demo.args)
                  = Done tt (emit (Demo.loaded Demo.args)
                      (Print "GOFILES = " :: (file_item <$> F1)
                         ++ [end_line]) t))
    /\ (exists t, PrintFList (Demo.env_backwards true Demo.args)
                    (Demo.loaded Demo.args)
                  = Done tt (emit (Demo.loaded Demo.args)
                      (Print "GOFILES = " :: (file_item <$> F2)
                         ++ [end_line]) t))
    /\ F1 ≡ₚ F2
    /\ (exists t, PrintDeps (Demo.env true Demo.args) (Demo.loaded Demo.args)
                  = Done tt (emit (Demo.loaded Demo.args) d1 t))
    /\ (exists t, PrintDeps (Demo.env_backwards true Demo.args)
                    (Demo.loaded Demo.args)
                  = Done tt (emit (Demo.loaded Demo.args) d2 t))
    /\ d1 ≡ₚ d2.
Proof.
  destruct (passes_up_to_enumeration (Demo.env true Demo.args)
              (Demo.env_backwards true Demo.args) (Demo.loaded Demo.args)
              ".EXTERNAL: " ".${O}")
    as (L1 & L2 & F1 & F2 & d1 & d2 & H1 & H2 & H3 & H4 & H5 & H6 & H7 & H8 & H9 & _).
  - intros V n m. reflexivity.
  - intros V n m. apply reverse_Permutation.
  - reflexivity.
  - apply (bool_decide_unpack _). vm_compute. exact I.
  - exists L1, L2, F1, F2, d1, d2. repeat split; assumption.
Defined.

(** C7 as worded fails: on the demo tree the two enumeration orders make
    every pass, and so the whole run, print a different text. *)
Lemma enumeration_order_counterexample :
  range_ok (Demo.env true Demo.args)
  /\ range_ok (Demo.env_backwards true Demo.args)
  /\ vec_ok (Demo.loaded Demo.args)
  /\ text (stdout (final (PrintNeeded (Demo.env true Demo.args)
                            ".EXTERNAL: " ".${O}" (Demo.loaded Demo.args))))
     <> text (stdout (final (PrintNeeded (Demo.env_backwards true Demo.args)
                               ".EXTERNAL: " ".${O}" (Demo.loaded Demo.args))))
  /\ text (stdout (final (PrintFList (Demo.env true Demo.args)
                            (Demo.loaded Demo.args))))
     <> text (stdout (final (PrintFList (Demo.env_backwards true Demo.args)
                               (Demo.loaded Demo.args))))
  /\ text (stdout (final (PrintDeps (Demo.env true Demo.args)
                            (Demo.loaded Demo.args))))
     <> text (stdout (final (PrintDeps (Demo.env_backwards true Demo.args)
                               (Demo.loaded Demo.args))))
  /\ text (stdout (final (main (Demo.env true Demo.args) init)))
     <> text (stdout (final (main (Demo.env_backwards true Demo.args) init))).
Proof.
  split; [apply forwards_ok|]. split; [apply backwards_ok|].
  split; [apply (bool_decide_unpack _); vm_compute; exact I|].
  repeat split; vm_compute; discriminate.
Qed.


(** ** Parse errors *)

Lemma bind_ParseFile {B} env f mode (k : ParseResult -> M B) s :
  bind (parser_ParseFile env f mode) k s = k (ParseFile env f mode) s.
Proof. done. Qed.

Lemma push_files l : forall s,
  for_ l (fun fname => modify (fun s => set_files s (files s ++ [fname]))) s
  = Done tt (set_files s (files s ++ l)).
Proof.
  induction l as [|f l IH]; intros s.
  - unfold for_; simpl. rewrite app_nil_r. by destruct s.
  - rewrite for_cons. unfold bind, modify at 1. rewrite IH.
    unfold set_files; simpl. by rewrite <- app_assoc.
Qed.

(** A parse without an error yields a tree. *)
Lemma file_parsed r : err r = None -> file r = Some (tree_of r).
Proof. by destruct r. Qed.

(** The loop of [main] over files that all parse is a sequence of
    registrations. *)
Lemma load_loop env l : forall s,
  Forall (fun g => err (ParseFile env g ImportsOnly) = None) l ->
  for_ l (fun fname =>
    r <- parser_ParseFile env fname ImportsOnly;
    match err r with
    | Some e => fmt_Fprintf_Stderr ("%s" +:+ LF) [e];; os_Exit 1
    | None => HandleFile env fname (file r)
    end) s
  = register env (units_of env l) s.
Proof.
  unfold register. induction l as [|f l IH]; intros s Hl; [done|].
  apply Forall_cons in Hl as [Hf Hl]. unfold units_of. rewrite fmap_cons.
  rewrite !for_cons, bind_assoc, bind_ParseFile, Hf, (file_parsed _ Hf).
  simpl fst; simpl snd. unfold bind.
  destruct (HandleFile env f _ s); [|done..]. by apply IH.
Qed.

(** The part of C6 that the code keeps: when the first parse of an argument
    fails, the run ends there with exit status 1; the error is on standard
    error and nothing is on standard output. *)
Lemma main_first_parse_error env pre f post e :
  showVersion env = false ->
  Args env = pre ++ f :: post ->
  Forall (fun g => err (ParseFile env g ImportsOnly) = None) pre ->
  err (ParseFile env f ImportsOnly) = Some e ->
  exists s,
    main env init = Exit 1 s
    /\ stdout s = []
    /\ stderr s = [Printf ("%s" +:+ LF) [e]].
Proof.
  intros Hv Hargs Hpre Hf. unfold main. rewrite Hv. simpl when.
  rewrite bind_ret. rewrite bool_decide_eq_false_2
    by (rewrite Hargs, length_app; simpl; lia).
  unfold bind at 1. rewrite push_files. rewrite bind_gets. cbv beta.
  cbn [files set_files init]. rewrite Hargs. simpl app at 1.
  unfold bind at 1. rewrite for_app. unfold bind at 1.
  rewrite load_loop by done.
  match goal with |- context [register env ?us ?s0] =>
    destruct (register_run env us s0) as (s1 & -> & _ & _ & _ & _ & Ho & He & _)
  end.
  { apply heap_ok_init. }
  rewrite for_cons, bind_assoc, bind_ParseFile, Hf.
  eexists. split; [reflexivity|]. simpl. by rewrite Ho, He.
Qed.

(** The precondition of the pass theorems holds whenever the passes run. *)
Lemma loaded_vec_ok env us :
  Forall (has_tree env) (unit_seq (foldl (handle env) ∅ us) "main") ->
  exists s,
    bind (register env us) (fun _ => FindMain env) init = Done tt s
    /\ vec_ok s.
Proof.
  intros Htrees.
  destruct (loaded_state env us Htrees) as (s0 & _ & Hrun & Hok & _).
  eexists. split; [exact Hrun|]. by apply vec_ok_set_roots, heap_ok_vec_ok.
Qed.

(** A run in which every file parses: the registrations, [FindMain], and
    the passes in their order. *)
Lemma main_loaded env :
  showVersion env = false ->
  Forall (fun g => err (ParseFile env g ImportsOnly) = None) (inputs env) ->
  main env init
  = bind (register env (units_of env (inputs env)))
      (fun _ =>
         FindMain env;;
         when (showNeeded env) (PrintNeeded env ".EXTERNAL: " ".${O}");;
         PrintNeeded env "# external packages: " EmptyString;;
         PrintFList env;;
         PrintDeps env)
      (set_files init (inputs env)).
Proof.
  intros Hv Hl. unfold main. rewrite Hv. simpl when. rewrite bind_ret.
  assert ((if bool_decide (length (Args env) = 0%nat)
           then modify (fun s => set_files s (files s ++ Walk_dot env))
           else for_ (Args env) (fun fname =>
                  modify (fun s => set_files s (files s ++ [fname])))) init
          = Done tt (set_files init (inputs env))) as Hfiles.
  { unfold inputs. case_bool_decide; [done|]. by rewrite push_files. }
  rewrite (bind_Done _ _ _ _ _ Hfiles), bind_gets. cbv beta.
  cbn [files set_files]. unfold bind at 1. rewrite load_loop by done.
  done.
Qed.

(** [FindMain] does not look at the error value of the second parse. *)
Lemma FindMain_ignores_err env1 env2 s :
  (forall f, file (ParseFile env1 f FullParse) = file (ParseFile env2 f FullParse)) ->
  FindMain env1 s = FindMain env2 s.
Proof.
  intros Hfile. unfold FindMain. rewrite !bind_gets. cbv beta.
  destruct (packages s !! "main") as [main|]; [|done].
  unfold bind at 1 3, deref.
  destruct (vectors s !! Package.files main) as [fs|]; [|done].
  generalize s. induction fs as [|f fs IH]; intros s'; [done|].
  rewrite !for_cons, !bind_assoc, !bind_ParseFile.
  rewrite Hfile. unfold bind. destruct (Walk_File _ _ s'); [|done..]. apply IH.
Qed.

(** C6 on a file whose import section parses and whose body does not: the
    error of the parse in [FindMain] is dropped, the run prints its rules and
    ends normally. *)
Theorem second_parse_error_ignored :
  err (Demo.ParseFile "broken.go" ImportsOnly) = None
  /\ err (Demo.ParseFile "broken.go" FullParse)
     = Some "broken.go:9:1: expected declaration"
  /\ exists s,
       main (Demo.env false ["broken.go"]) init = Done tt s
       /\ stderr s = []
       /\ stdout s
          = [Print "# external packages: "; needed_item EmptyString "fmt";
             Print LF;
             Print "GOFILES = "; file_item "broken.go"; end_line;
             app_line "broken";
             root_head "broken" "broken.go"; end_line].
Proof.
  split; [reflexivity|]. split; [reflexivity|].
  exists (final (main (Demo.env false ["broken.go"]) init)).
  split; [vm_compute; reflexivity|]. split; vm_compute; reflexivity.
Qed.

(* ================================================================== *)
(** * More about the program *)

(** ** Outcomes of [main] *)

(** The first statements of [main] after the version check leave the input
    file names in [files]. *)
Lemma main_files env :
  (if bool_decide (length (Args env) = 0%nat)
   then modify (fun s => set_files s (files s ++ Walk_dot env))
   else for_ (Args env) (fun fname =>
          modify (fun s => set_files s (files s ++ [fname])))) init
  = Done tt (set_files init (inputs env)).
Proof. unfold inputs. case_bool_decide; [done|]. by rewrite push_files. Qed.

(** The loop of [main] over the files up to the first one that does not
    parse. *)
Lemma load_loop_error env pre f post e s :
  heap_ok s ->
  Forall (parses env) pre ->
  err (ParseFile env f ImportsOnly) = Some e ->
  exists s1,
    register env (units_of env pre) s = Done tt s1
    /\ for_ (pre ++ f :: post) (fun fname =>
         r <- parser_ParseFile env fname ImportsOnly;
         match err r with
         | Some e => fmt_Fprintf_Stderr ("%s" +:+ LF) [e];; os_Exit 1
         | None => HandleFile env fname (file r)
         end) s
       = Exit 1 (set_stderr s1 (stderr s1 ++ [Printf ("%s" +:+ LF) [e]])).
Proof.
  intros Hok Hpre Hf.
  destruct (register_run env (units_of env pre) s Hok) as (s1 & Hrun & _).
  exists s1. split; [done|].
  rewrite for_app. unfold bind at 1. rewrite load_loop by done. rewrite Hrun.
  by rewrite for_cons, bind_assoc, bind_ParseFile, Hf.
Qed.

(** X1: [main] stops at the first file whose imports do not parse. The exit
    status is 1, the error is the only thing on standard error, nothing is
    on standard output, and the registry holds the files before it. This
    covers file names from the arguments and from the directory walk. *)
Theorem main_stops_at_first_error env pre f post e :
  showVersion env = false ->
  inputs env = pre ++ f :: post ->
  Forall (parses env) pre ->
  err (ParseFile env f ImportsOnly) = Some e ->
  exists s,
    main env init = Exit 1 s
    /\ stdout s = []
    /\ stderr s = [Printf ("%s" +:+ LF) [e]]
    /\ view s = foldl (handle env) ∅ (units_of env pre)
    /\ roots s = ∅.
Proof.
  intros Hv Hin Hpre Hf. unfold main. rewrite Hv. simpl when. rewrite bind_ret.
  rewrite (bind_Done _ _ _ _ _ (main_files env)), bind_gets. cbv beta.
  cbn [files set_files]. rewrite Hin.
  destruct (load_loop_error env pre f post e
              (set_files init (pre ++ f :: post))) as (s1 & Hreg & Hloop);
    [apply heap_ok_init|done..|].
  rewrite (bind_Exit _ _ _ _ _ Hloop).
  destruct (register_run env (units_of env pre)
              (set_files init (pre ++ f :: post)) heap_ok_init)
    as (s1' & Hreg' & _ & Hview & Hr & _ & Ho & He & _).
  assert (s1' = s1) as -> by congruence.
  eexists. split; [done|].
  split; [simpl; by rewrite Ho|]. split; [simpl; by rewrite He|].
  split; [|simpl; by rewrite Hr].
  change (view s1 = foldl (handle env) ∅ (units_of env pre)).
  rewrite Hview. change (view (set_files init _)) with (view init).
  by rewrite view_init.
Qed.

Lemma main_stops_at_first_error_witness :
  exists s,
    main (Demo.env false ["util.go"; "missing.go"; "main.go"]) init = Exit 1 s
    /\ stdout s = []
    /\ stderr s
       = [Printf ("%s" +:+ LF) ["open missing.go: no such file or directory"]].
Proof.
  destruct (main_stops_at_first_error
              (Demo.env false ["util.go"; "missing.go"; "main.go"])
              ["util.go"] "missing.go" ["main.go"]
              "open missing.go: no such file or directory")
    as (s & Hrun & Ho & He & _).
  - reflexivity.
  - reflexivity.
  - repeat constructor.
  - reflexivity.
  - exists s. split; [exact Hrun|]. split; [exact Ho|exact He].
Defined.
(** The state in which the passes start, for registrations that begin in a
    state [s] with a sound heap. *)
Lemma loaded_from env us s :
  heap_ok s ->
  Forall (has_tree env) (unit_seq (foldl (handle env) (view s) us) "main") ->
  exists s0,
    bind (register env us) (fun _ => FindMain env) s = Done tt s0
    /\ vec_ok s0
    /\ view s0 = foldl (handle env) (view s) us
    /\ files s0 = files s /\ stdout s0 = stdout s /\ stderr s0 = stderr s.
Proof.
  intros Hok Htrees.
  destruct (register_run env us s Hok)
    as (s1 & Hrun & Hok1 & Hview & _ & Hf & Ho & He & _).
  rewrite (bind_Done _ _ _ _ _ Hrun), FindMain_run;
    [|by apply heap_ok_vec_ok|apply main_trees_view; by rewrite Hview].
  eexists. split; [done|]. split; [by apply vec_ok_set_roots, heap_ok_vec_ok|].
  by repeat split.
Qed.

Lemma trees_inputs env l fs :
  Forall (reparses env) l ->
  Forall (has_tree env)
    (unit_seq (foldl (handle env) (view (set_files init fs)) (units_of env l))
       "main").
Proof.
  intros Hl. change (view (set_files init fs)) with (view init).
  rewrite view_init. by apply trees_units.
Qed.

(** The four passes one after the other. *)
Lemma passes_run env s :
  range_ok env -> vec_ok s ->
  exists E N F D sD t,
    (when (showNeeded env) (PrintNeeded env ".EXTERNAL: " ".${O}");;
     PrintNeeded env "# external packages: " EmptyString;;
     PrintFList env;;
     PrintDeps env) s
    = Done tt (emit s
        (E ++ (Print "# external packages: "
                 :: (needed_item EmptyString <$> N) ++ [Print LF])
           ++ (Print "GOFILES = " :: (file_item <$> F) ++ [end_line])
           ++ D) t)
    /\ (if showNeeded env
        then exists N', E = Print ".EXTERNAL: "
                              :: (needed_item ".${O}" <$> N') ++ [Print LF]
                        /\ N' ≡ₚ N
        else E = [])
    /\ NoDup N
    /\ (forall x, x ∈ N <-> import_target s x /\ packages s !! x = None)
    /\ NoDup F
    /\ (forall f, f ∈ F <-> unit_of s f)
    /\ PrintDeps env sD = Done tt (emit sD D t)
    /\ sD = emit s
         (E ++ (Print "# external packages: "
                  :: (needed_item EmptyString <$> N) ++ [Print LF])
            ++ (Print "GOFILES = " :: (file_item <$> F) ++ [end_line])) (tick sD).
Proof.
  intros Hr Hok.
  assert (exists E s1 t1,
            when (showNeeded env) (PrintNeeded env ".EXTERNAL: " ".${O}") s
            = Done tt s1
            /\ s1 = emit s E t1
            /\ (if showNeeded env
                then exists N', E = Print ".EXTERNAL: "
                              :: (needed_item ".${O}" <$> N') ++ [Print LF]
                        /\ NoDup N'
                        /\ forall x, x ∈ N' <->
                             import_target s x /\ packages s !! x = None
                else E = [])) as (E & s1 & t1 & HE & -> & HEs).
  { destruct (showNeeded env); simpl when.
    - eexists _, _, _. split; [apply PrintNeeded_run|]. split; [done|].
      eexists. split; [done|]. split; [apply NoDup_fresh|].
      intros x. by apply elem_of_needed.
    - exists [], s, (tick s). split; [done|]. by rewrite emit_nil. }
  rewrite (bind_Done _ _ _ _ _ HE).
  rewrite (bind_Done _ _ _ _ _ (PrintNeeded_run env _ _ _)).
  rewrite emit_emit.
  erewrite bind_Done; [|by apply PrintFList_run].
  rewrite emit_emit.
  set (N := fresh ∅ _). set (F := fresh ∅ _).
  match goal with |- context [PrintDeps env ?sD] => set (s3 := sD) end.
  assert (vec_ok s3) as Hok3 by done.
  pose proof (PrintDeps_run env s3 Hr Hok3) as HD.
  match type of HD with _ = Done tt (emit _ ?D ?t) =>
    exists E, N, F, D, s3, t end.
  split.
  { rewrite HD. unfold s3. rewrite emit_emit. f_equal. f_equal.
    by rewrite <- !app_assoc. }
  split.
  { destruct (showNeeded env); [|done].
    destruct HEs as (N' & -> & Hnd & HN'). exists N'. split; [done|].
    apply NoDup_Permutation; [done|apply NoDup_fresh|].
    intros x. rewrite HN'. unfold N. by rewrite elem_of_needed. }
  split; [apply NoDup_fresh|].
  split; [intros x; unfold N; by rewrite elem_of_needed|].
  split; [apply NoDup_fresh|].
  split; [intros f; unfold F; by rewrite elem_of_fresh_listed|].
  split; [done|]. unfold s3. f_equal. by rewrite <- !app_assoc.
Qed.

(** After the registration of the files [l], the units of the registry are
    the names in [l]. *)
Lemma unit_of_view env l s :
  view s = foldl (handle env) ∅ (units_of env l) ->
  forall f, unit_of s f <-> f ∈ l.
Proof.
  intros Hview f. unfold unit_of. split.
  - intros (name & p & Hp & Hf).
    destruct (view_lookup s name p Hp) as [Hfiles _].
    rewrite Hfiles, Hview, registered_unit_seq, unit_seq_empty in Hf.
    rewrite units_in_units_of in Hf. simpl in Hf.
    by apply list_elem_of_filter in Hf as [_ Hf].
  - intros Hf. set (name := Name_Name (tree_of (ParseFile env f ImportsOnly))).
    assert (is_Some (packages s !! name)) as [p Hp].
    { rewrite view_is_Some, Hview, registered_is_Some. right.
      exists (f, tree_of (ParseFile env f ImportsOnly)). split; [|done].
      by apply (list_elem_of_fmap_2
                  (fun f => (f, tree_of (ParseFile env f ImportsOnly))) l). }
    exists name, p. split; [done|].
    destruct (view_lookup s name p Hp) as [-> _].
    rewrite Hview, registered_unit_seq, unit_seq_empty, units_in_units_of.
    simpl. by apply list_elem_of_filter.
Qed.

(** X2: a run in which every file parses, and the second parse of every file
    of package main yields a tree, ends normally with nothing on standard
    error. Standard output holds, in this order: in show-needed
    mode the .EXTERNAL line; the comment line with the same external
    packages; the GOFILES line with every input file name once; the rules of
    the packages; the lines and rules of the roots. *)
Theorem main_output env :
  range_ok env ->
  showVersion env = false ->
  Forall (parses env) (inputs env) ->
  Forall (reparses env) (inputs env) ->
  exists s E N F order prules lines rrules,
    main env init = Done tt s
    /\ stderr s = []
    /\ files s = inputs env
    /\ stdout s
       = E ++ (Print "# external packages: "
                 :: (needed_item EmptyString <$> N) ++ [Print LF])
           ++ (Print "GOFILES = " :: (file_item <$> F) ++ [end_line])
           ++ concat prules ++ lines ++ concat rrules
    /\ (if showNeeded env
        then exists N', E = Print ".EXTERNAL: "
                              :: (needed_item ".${O}" <$> N') ++ [Print LF]
                        /\ N' ≡ₚ N
        else E = [])
    /\ NoDup N
    /\ (forall x, x ∈ N <-> import_target s x /\ packages s !! x = None)
    /\ NoDup F
    /\ (forall f, f ∈ F <-> f ∈ inputs env)
    /\ order ≡ₚ map_to_list (packages s)
    /\ Forall2 (is_pkg_rule env s) (others order) prules
    /\ match packages s !! "main" with
       | Some main =>
           lines = app_lines s (files_of s main)
           /\ Forall2 (is_root_rule env s main
                         (common_files s (files_of s main)))
                      (root_files s (files_of s main)) rrules
       | None => lines = [] /\ rrules = []
       end.
Proof.
  intros Hr Hv Hl Ht. rewrite main_loaded by done.
  destruct (loaded_from env (units_of env (inputs env))
              (set_files init (inputs env)) heap_ok_init
              (trees_inputs _ _ _ Ht))
    as (s0 & Hload & Hok & Hview & Hf & Ho & He).
  rewrite <- bind_assoc. rewrite (bind_Done _ _ _ _ _ Hload).
  destruct (passes_run env s0 Hr Hok)
    as (E & N & F & D & sD & t & Hrun & HE & HN & HNm & HF & HFm & HD & HsD).
  assert (vec_ok sD) as HokD by (by rewrite HsD).
  destruct (PrintDeps_structure env sD Hr HokD)
    as (order & prules & lines & rrules & t' & HD' & Hord & HP & HM).
  rewrite HD in HD'. apply Done_emit_inj in HD'. subst D.
  eexists _, E, N, F, order, prules, lines, rrules.
  split; [exact Hrun|].
  split; [change (stderr s0 = []); by rewrite He|].
  split; [change (files s0 = inputs env); by rewrite Hf|].
  split; [rewrite stdout_emit, Ho; simpl; by rewrite <- ?app_assoc|].
  split; [done|]. split; [done|]. split; [done|]. split; [done|].
  split.
  { intros f. rewrite HFm. apply (unit_of_view env). by rewrite Hview. }
  rewrite HsD in Hord, HP, HM. done.
Qed.

Lemma main_output_witness :
  exists s, main (Demo.env true Demo.args) init = Done tt s /\ stderr s = [].
Proof.
  destruct (main_output (Demo.env true Demo.args))
    as (s & E & N & F & order & prules & lines & rrules & Hrun & He & _).
  - apply forwards_ok.
  - reflexivity.
  - apply (bool_decide_unpack _). vm_compute. exact I.
  - apply (bool_decide_unpack _). vm_compute. exact I.
  - exists s. split; [exact Hrun | exact He].
Defined.

(** X3: the outcome of [main] is decided by the version flag and the two
    parses of the inputs. With the version flag it prints the version and
    exits with status 0 before any file is read. Otherwise it exits with
    status 1 and an empty standard output exactly when the first parse of
    some input fails; it ends in a nil dereference in [FindMain], before any
    pass has printed, exactly when every first parse succeeds and the second
    parse of some file of package main yields no tree; and it returns
    normally in the remaining case. *)
Theorem main_outcome env :
  range_ok env ->
  match main env init with
  | Done _ s =>
      showVersion env = false /\ Forall (parses env) (inputs env)
      /\ Forall (reparses env) (inputs env)
  | Exit code s =>
      if showVersion env
      then code = 0%Z /\ stdout s = ShowVersion_out env /\ stderr s = []
           /\ files s = [] /\ packages s = ∅
      else code = 1%Z /\ ~ Forall (parses env) (inputs env) /\ stdout s = []
  | Panic s =>
      showVersion env = false /\ Forall (parses env) (inputs env)
      /\ ~ Forall (reparses env) (inputs env)
      /\ stdout s = [] /\ stderr s = []
  end.
Proof.
  intros Hr. destruct (showVersion env) eqn:Hv.
  { unfold main. rewrite Hv. done. }
  destruct (decide (Forall (parses env) (inputs env))) as [Hl|Hl].
  - rewrite main_loaded by done.
    destruct (decide (Forall (reparses env) (inputs env))) as [Ht|Ht].
    + destruct (loaded_from env (units_of env (inputs env))
                  (set_files init (inputs env)) heap_ok_init
                  (trees_inputs _ _ _ Ht))
        as (s0 & Hload & Hok & _).
      rewrite <- bind_assoc. rewrite (bind_Done _ _ _ _ _ Hload).
      destruct (passes_run env s0 Hr Hok) as (E & N & F & D & sD & t & -> & _).
      done.
    + destruct (register_run env (units_of env (inputs env))
                  (set_files init (inputs env)) heap_ok_init)
        as (s1 & Hreg & Hok1 & Hview & _ & _ & Ho & He & _).
      rewrite (bind_Done _ _ _ _ _ Hreg).
      destruct (FindMain_panic env s1) as (rs & Hpanic).
      { by apply heap_ok_vec_ok. }
      { rewrite main_trees_view, Hview.
        change (view (set_files init (inputs env))) with (view init).
        by rewrite view_init, <- trees_units. }
      rewrite (bind_Panic _ _ _ _ Hpanic).
      split; [done|]. split; [done|]. split; [done|].
      simpl. by rewrite Ho, He.
  - destruct (first_failure _ _ Hl) as (pre & f & post & Hin & Hpre & Hf).
    destruct (err (ParseFile env f ImportsOnly)) as [e|] eqn:He; [|done].
    unfold main. rewrite Hv. simpl when. rewrite bind_ret.
    rewrite (bind_Done _ _ _ _ _ (main_files env)), bind_gets. cbv beta.
    cbn [files set_files]. rewrite Hin.
    destruct (load_loop_error env pre f post e
                (set_files init (pre ++ f :: post))) as (s1 & Hreg & Hloop);
      [apply heap_ok_init|done..|].
    rewrite (bind_Exit _ _ _ _ _ Hloop).
    destruct (register_run env (units_of env pre)
                (set_files init (pre ++ f :: post)) heap_ok_init)
      as (s1' & Hreg' & _ & _ & _ & _ & Ho & _).
    assert (s1' = s1) as -> by congruence.
    split; [done|]. split; [by rewrite <- Hin|]. simpl. by rewrite Ho.
Qed.

Lemma main_outcome_witness :
  match main (Demo.env false ["util.go"; "gone.go"]) init with
  | Done _ _ => False
  | Exit _ _ => False
  | Panic s => stdout s = [] /\ stderr s = []
  end.
Proof.
  pose proof (main_outcome (Demo.env false ["util.go"; "gone.go"])
                (forwards_ok _ _)) as H.
  destruct (main (Demo.env false ["util.go"; "gone.go"]) init)
    as [[] s|code s|s].
  - destruct H as (_ & _ & H). apply Forall_inv_tail, Forall_inv in H.
    destruct (H eq_refl) as [t Ht]. discriminate Ht.
  - destruct H as (_ & H & _). apply H.
    apply (bool_decide_unpack _). vm_compute. exact I.
  - destruct H as (_ & _ & _ & Ho & He). split; [exact Ho | exact He].
Defined.

(** ** Runs without files, and registries without roots *)

Lemma list_nil_of_not_elem {A} (l : list A) : (forall x, x ∉ l) -> l = [].
Proof.
  destruct l as [|x l]; [done|]. intros H. destruct (H x). by left.
Qed.

(** X4: with no arguments and a directory walk that finds no file, [main]
    still runs every pass: it prints the external-packages comment line and
    the GOFILES line, both empty, and no rule; in show-needed mode an empty
    .EXTERNAL line comes first. Nothing is registered. *)
Theorem main_no_input env :
  range_ok env ->
  showVersion env = false ->
  inputs env = [] ->
  exists s,
    main env init = Done tt s
    /\ stderr s = []
    /\ packages s = ∅ /\ roots s = ∅
    /\ stdout s
       = (if showNeeded env then [Print ".EXTERNAL: "; Print LF] else [])
         ++ [Print "# external packages: "; Print LF;
             Print "GOFILES = "; end_line].
Proof.
  intros Hr Hv Hin. rewrite main_loaded by (by rewrite ?Hin).
  rewrite Hin. simpl units_of.
  set (s0 := set_files init []).
  assert (bind (register env []) (fun _ => FindMain env) s0 = Done tt s0)
    as Hload by done.
  rewrite <- bind_assoc. rewrite (bind_Done _ _ _ _ _ Hload).
  assert (vec_ok s0) as Hok by (intros name p Hp; done).
  destruct (passes_run env s0 Hr Hok)
    as (E & N & F & D & sD & t & Hrun & HE & _ & HNm & _ & HFm & HD & HsD).
  assert (N = []) as ->.
  { apply list_nil_of_not_elem. intros x Hx. apply HNm in Hx.
    by destruct Hx as [(name & p & k & Hp & _) _]. }
  assert (F = []) as ->.
  { apply list_nil_of_not_elem. intros f Hf. apply HFm in Hf.
    by destruct Hf as (name & p & Hp & _). }
  assert (E = if showNeeded env then [Print ".EXTERNAL: "; Print LF] else [])
    as ->.
  { destruct (showNeeded env); [|done].
    destruct HE as (N' & -> & HN'). by apply Permutation_nil_r in HN' as ->. }
  assert (vec_ok sD) as HokD by (by rewrite HsD).
  destruct (PrintDeps_structure env sD Hr HokD)
    as (order & prules & lines & rrules & t' & HD' & Hord & HP & HM).
  rewrite HD in HD'. apply Done_emit_inj in HD'. subst D.
  rewrite HsD in Hord, HP, HM.
  change (order ≡ₚ map_to_list (∅ : gmap string Package)) in Hord.
  rewrite map_to_list_empty in Hord. apply Permutation_nil_r in Hord as ->.
  apply Forall2_nil_inv_l in HP as ->.
  change (lines = [] /\ rrules = []) in HM. destruct HM as [-> ->].
  eexists. split; [exact Hrun|]. split; [done|]. split; [done|].
  split; [done|]. rewrite stdout_emit. simpl. by destruct (showNeeded env).
Qed.

Lemma main_no_input_witness :
  exists s,
    main (Demo.env true []) init = Done tt s
    /\ stdout s
       = [Print ".EXTERNAL: "; Print LF;
          Print "# external packages: "; Print LF;
          Print "GOFILES = "; end_line].
Proof.
  destruct (main_no_input (Demo.env true [])) as (s & Hrun & _ & _ & _ & Ho).
  - apply forwards_ok.
  - reflexivity.
  - reflexivity.
  - exists s. split; [exact Hrun | exact Ho].
Defined.

Lemma app_lines_no_roots s fs :
  (forall f, f ∈ fs -> roots s !! f = None) -> app_lines s fs = [].
Proof.
  unfold app_lines. induction fs as [|f fs IH]; intros H; [done|].
  simpl. rewrite (H f) by (by left). simpl. apply IH.
  intros g Hg. apply H. by right.
Qed.

Lemma root_files_no_roots s fs :
  (forall f, f ∈ fs -> roots s !! f = None) -> root_files s fs = [].
Proof.
  intros H. apply list_nil_of_not_elem. intros f Hf.
  apply elem_of_root_files in Hf as [[app Happ] Hf].
  rewrite (H f Hf) in Happ. done.
Qed.

(** X5: when the registry has no main package, or no file of the main
    package is a root, [PrintDeps] prints the rules of the other packages
    and nothing else. A file that belongs to the main package only is then
    named in no rule. *)
Theorem PrintDeps_without_roots env s :
  range_ok env -> vec_ok s ->
  (forall main f, packages s !! "main" = Some main ->
     f ∈ files_of s main -> roots s !! f = None) ->
  exists order rules t,
    PrintDeps env s = Done tt (emit s (concat rules) t)
    /\ order ≡ₚ map_to_list (packages s)
    /\ Forall2 (is_pkg_rule env s) (others order) rules
    /\ forall f,
         (forall name p, packages s !! name = Some p -> f ∈ files_of s p ->
            name = "main") ->
         file_item f ∉ concat rules.
Proof.
  intros Hr Hok Hroots.
  destruct (PrintDeps_structure env s Hr Hok)
    as (order & prules & lines & rrules & t & Hrun & Hord & HP & HM).
  assert (lines = [] /\ rrules = []) as [-> ->].
  { destruct (packages s !! "main") as [main|] eqn:Hmain; [|done].
    destruct HM as [-> HR].
    rewrite root_files_no_roots in HR by (intros g; apply (Hroots main g eq_refl)).
    apply Forall2_nil_inv_l in HR as ->.
    by rewrite app_lines_no_roots by (intros g; apply (Hroots main g eq_refl)). }
  exists order, prules, t. simpl in Hrun. rewrite app_nil_r in Hrun.
  split; [done|]. split; [done|]. split; [done|].
  intros f Hf Hin.
  destruct (elem_of_concat_Forall2 _ _ _ _ HP Hin)
    as ([name p] & rule & Hnp & Hrule & Hfr).
  apply list_elem_of_filter in Hnp as [Hname Hnp]. simpl in Hname.
  apply count_pos in Hfr.
  rewrite (count_file_item_pkg_rule _ _ _ _ _ Hrule) in Hfr.
  apply count_pos_inv in Hfr. simpl in Hfr.
  apply Hname, (Hf name p); [|done].
  apply elem_of_map_to_list. by rewrite <- Hord.
Qed.

Lemma PrintDeps_without_roots_witness :
  exists rules t,
    PrintDeps (Demo.env false ["common.go"; "util.go"])
      (Demo.loaded ["common.go"; "util.go"])
    = Done tt (emit (Demo.loaded ["common.go"; "util.go"]) (concat rules) t)
    /\ file_item "common.go" ∉ concat rules.
Proof.
  destruct (PrintDeps_without_roots (Demo.env false ["common.go"; "util.go"])
              (Demo.loaded ["common.go"; "util.go"]))
    as (order & rules & t & Hrun & _ & _ & Hno).
  - apply forwards_ok.
  - apply (bool_decide_unpack _). vm_compute. exact I.
  - intros main f _ _. reflexivity.
  - exists rules, t. split; [exact Hrun|]. apply Hno.
    apply (bool_decide_unpack
             (map_Forall (fun name p =>
                "common.go" ∈ files_of (Demo.loaded ["common.go"; "util.go"]) p
                -> name = "main")
                (packages (Demo.loaded ["common.go"; "util.go"])))).
    vm_compute. exact I.
Defined.

(** ** The registry *)

Lemma add_import_subseteq env m value : m ⊆ add_import env m value.
Proof.
  unfold add_import. destruct (m !! import_path env value) eqn:Hm; [done|].
  by apply insert_subseteq.
Qed.

Lemma add_imports_subseteq env vs : forall m, m ⊆ foldl (add_import env) m vs.
Proof.
  induction vs as [|v vs IH]; intros m; [done|]. simpl.
  etrans; [apply (add_import_subseteq env m v)|apply IH].
Qed.

Lemma registered_import_subseteq env us : forall r name,
  import_map r name ⊆ import_map (foldl (handle env) r us) name.
Proof.
  induction us as [|u us IH]; intros r name; [done|]. simpl.
  etrans; [|apply IH]. rewrite handle_import_map.
  destruct (decide (Name_Name u.2 = name)); [|done].
  apply add_imports_subseteq.
Qed.

(** X6: registrations only add. From any well-formed state, registering
    further units ends normally and keeps the state well formed; every
    package stays registered, its unit sequence is extended at the end, its
    import map keeps every entry it had; [files], [roots] and both output
    streams are left alone. *)
Theorem register_grows env us s :
  heap_ok s ->
  exists s',
    register env us s = Done tt s'
    /\ heap_ok s'
    /\ (forall name p, packages s !! name = Some p ->
          exists p',
            packages s' !! name = Some p'
            /\ files_of s p `prefix_of` files_of s' p'
            /\ imports_of s p ⊆ imports_of s' p')
    /\ files s' = files s /\ roots s' = roots s
    /\ stdout s' = stdout s /\ stderr s' = stderr s.
Proof.
  intros Hok.
  destruct (register_run env us s Hok)
    as (s' & Hrun & Hok' & Hview & Hr & Hf & Ho & He & _).
  exists s'. split; [done|]. split; [done|].
  split; [|by repeat split].
  intros name p Hp.
  assert (is_Some (packages s' !! name)) as [p' Hp'].
  { rewrite view_is_Some, Hview, registered_is_Some. left.
    by rewrite <- view_is_Some, Hp. }
  exists p'. split; [done|].
  destruct (view_lookup s name p Hp) as [-> ->].
  destruct (view_lookup s' name p' Hp') as [-> ->].
  rewrite Hview. split.
  - rewrite registered_unit_seq. by eexists.
  - apply registered_import_subseteq.
Qed.

Lemma heap_ok_scanned l : heap_ok (Demo.scanned l).
Proof.
  destruct (registered_state (Demo.env false l) (Demo.units l))
    as (s & Hrun & Hok & _).
  unfold Demo.scanned. by rewrite Hrun.
Qed.

Lemma register_grows_witness :
  exists s',
    register (Demo.env false []) (Demo.units ["util_test.go"; "log.go"])
      (Demo.scanned ["main.go"; "util.go"])
    = Done tt s'
    /\ stdout s' = stdout (Demo.scanned ["main.go"; "util.go"]).
Proof.
  destruct (register_grows (Demo.env false [])
              (Demo.units ["util_test.go"; "log.go"])
              (Demo.scanned ["main.go"; "util.go"]))
    as (s' & Hrun & _ & _ & _ & _ & Ho & _).
  - apply heap_ok_scanned.
  - exists s'. split; [exact Hrun | exact Ho].
Defined.

(** X7: after a run in which every input parses, and the second parse of
    every file of package main yields a tree, the registry is a
    partition of the inputs by package clause: a package is registered
    exactly when some input names it, its unit sequence is the inputs that
    name it, in input order and with their repetitions, and a file is a
    unit of no other package than the one it names. *)
Theorem main_registry env :
  range_ok env ->
  showVersion env = false ->
  Forall (parses env) (inputs env) ->
  Forall (reparses env) (inputs env) ->
  exists s,
    main env init = Done tt s
    /\ (forall name,
          is_Some (packages s !! name) <->
          exists f, f ∈ inputs env
                    /\ Name_Name (tree_of (ParseFile env f ImportsOnly)) = name)
    /\ (forall name p, packages s !! name = Some p ->
          files_of s p
          = filter (fun f => Name_Name (tree_of (ParseFile env f ImportsOnly)) = name)
                   (inputs env))
    /\ (forall name p f, packages s !! name = Some p -> f ∈ files_of s p ->
          name = Name_Name (tree_of (ParseFile env f ImportsOnly))).
Proof.
  intros Hr Hv Hl Ht. rewrite main_loaded by done.
  destruct (loaded_from env (units_of env (inputs env))
              (set_files init (inputs env)) heap_ok_init
              (trees_inputs _ _ _ Ht))
    as (s0 & Hload & Hok & Hview & _).
  rewrite <- bind_assoc. rewrite (bind_Done _ _ _ _ _ Hload).
  destruct (passes_run env s0 Hr Hok) as (E & N & F & D & sD & t & Hrun & _).
  eexists. split; [exact Hrun|].
  set (s := emit s0 _ t).
  assert (view s = foldl (handle env) ∅ (units_of env (inputs env))) as Hs.
  { change (view s) with (view s0). rewrite Hview.
    change (view (set_files init (inputs env))) with (view init).
    by rewrite view_init. }
  assert (forall name p, packages s !! name = Some p ->
            files_of s p
            = filter (fun f => Name_Name (tree_of (ParseFile env f ImportsOnly)) = name)
                     (inputs env)) as Hfiles.
  { intros name p Hp. destruct (view_lookup s name p Hp) as [-> _].
    rewrite Hs, registered_unit_seq, unit_seq_empty, units_in_units_of.
    done. }
  split; [|split; [done|]].
  - intros name. rewrite view_is_Some, Hs, registered_is_Some. split.
    + intros [[? H]|([f file] & Hu & Hname)]; [by rewrite lookup_empty in H|].
      apply list_elem_of_fmap in Hu as (g & [= -> ->] & Hg). by exists g.
    + intros (f & Hf & Hname). right.
      exists (f, tree_of (ParseFile env f ImportsOnly)). split; [|done].
      by apply (list_elem_of_fmap_2
                  (fun f => (f, tree_of (ParseFile env f ImportsOnly)))).
  - intros name p f Hp Hf. rewrite (Hfiles name p Hp) in Hf.
    by apply list_elem_of_filter in Hf as [-> _].
Qed.

Lemma main_registry_witness :
  exists s, main (Demo.env false Demo.args) init = Done tt s
            /\ is_Some (packages s !! "util").
Proof.
  destruct (main_registry (Demo.env false Demo.args)) as (s & Hrun & Hreg & _).
  - apply forwards_ok.
  - reflexivity.
  - apply (bool_decide_unpack _). vm_compute. exact I.
  - apply (bool_decide_unpack _). vm_compute. exact I.
  - exists s. split; [exact Hrun|]. apply Hreg. exists "util.go".
    split; [|reflexivity]. apply (bool_decide_unpack _). vm_compute. exact I.
Defined.

Lemma registered_import_map_ext env us1 us2 name :
  (forall u, u ∈ us1 <-> u ∈ us2) ->
  import_map (foldl (handle env) ∅ us1) name
  = import_map (foldl (handle env) ∅ us2) name.
Proof.
  intros Hsame. apply map_eq. intros k. apply option_eq. intros x.
  assert (forall us k x,
            import_map (foldl (handle env) ∅ us) name !! k = Some x -> x = k)
    as Hval.
  { intros us. apply registered_import_values. intros k' x'.
    by rewrite import_map_empty, lookup_empty. }
  assert (forall us us', (forall u, u ∈ us -> u ∈ us') ->
            import_map (foldl (handle env) ∅ us) name !! k = Some x ->
            import_map (foldl (handle env) ∅ us') name !! k = Some x) as Hincl.
  { intros us us' Hsub Hk. pose proof (Hval _ _ _ Hk) as ->.
    assert (is_Some (import_map (foldl (handle env) ∅ us') name !! k))
      as [y Hy].
    { rewrite registered_import_keys. right.
      assert (is_Some (import_map (foldl (handle env) ∅ us) name !! k))
        as Hs by (by rewrite Hk).
      apply registered_import_keys in Hs
        as [[? H]|(u & value & Hu & Hrest)].
      - by rewrite import_map_empty, lookup_empty in H.
      - exists u, value. split; [by apply Hsub|done]. }
    by rewrite Hy, (Hval _ _ _ Hy). }
  split; apply Hincl; intros u; apply Hsame.
Qed.

(** X8: the import map of a package depends only on which units were
    registered, not on their order or on how often each was registered. In
    particular registering the same units once more adds nothing to any
    import map. *)
Theorem imports_order_irrelevant env us1 us2 :
  (forall u, u ∈ us1 <-> u ∈ us2) ->
  exists s1 s2,
    register env us1 init = Done tt s1
    /\ register env us2 init = Done tt s2
    /\ (forall name,
          is_Some (packages s1 !! name) <-> is_Some (packages s2 !! name))
    /\ forall name p1 p2,
         packages s1 !! name = Some p1 -> packages s2 !! name = Some p2 ->
         imports_of s1 p1 = imports_of s2 p2.
Proof.
  intros Hsame.
  destruct (registered_state env us1) as (s1 & Hrun1 & _ & Hview1 & _).
  destruct (registered_state env us2) as (s2 & Hrun2 & _ & Hview2 & _).
  exists s1, s2. split; [done|]. split; [done|]. split.
  - intros name. rewrite !view_is_Some, Hview1, Hview2, !registered_is_Some.
    split; (intros [H|(u & Hu & Hname)]; [by left|right]); exists u;
      (split; [by apply Hsame|done]).
  - intros name p1 p2 Hp1 Hp2.
    destruct (view_lookup s1 name p1 Hp1) as [_ ->].
    destruct (view_lookup s2 name p2 Hp2) as [_ ->].
    rewrite Hview1, Hview2. by apply registered_import_map_ext.
Qed.

Lemma imports_order_irrelevant_witness :
  exists s1 s2,
    register (Demo.env false []) (Demo.units ["util.go"; "util_test.go"]) init
    = Done tt s1
    /\ register (Demo.env false [])
         (Demo.units ["util_test.go"; "util.go"; "util_test.go"]) init
       = Done tt s2
    /\ forall p1 p2,
         packages s1 !! "util" = Some p1 -> packages s2 !! "util" = Some p2 ->
         imports_of s1 p1 = imports_of s2 p2.
Proof.
  destruct (imports_order_irrelevant (Demo.env false [])
              (Demo.units ["util.go"; "util_test.go"])
              (Demo.units ["util_test.go"; "util.go"; "util_test.go"]))
    as (s1 & s2 & H1 & H2 & _ & Himp).
  - intros u. rewrite !list_elem_of_In. simpl. tauto.
  - exists s1, s2. split; [exact H1|]. split; [exact H2|].
    intros p1 p2. apply Himp.
Defined.

(** X9: when the full parse of every unit of the main package yields a
    tree, [FindMain] returns and records as roots exactly the units of the
    main package whose full parse declares a function named main, each with
    the part of its name before the first dot; the other entries of [roots]
    stay as they were, and so do the registry, [files] and the output.
    Without a main package it records nothing, whatever the other packages
    declare. *)
Theorem FindMain_roots env s :
  vec_ok s -> main_trees env s ->
  exists s',
    FindMain env s = Done tt s'
    /\ packages s' = packages s /\ vectors s' = vectors s /\ maps s' = maps s
    /\ files s' = files s /\ stdout s' = stdout s /\ stderr s' = stderr s
    /\ match packages s !! "main" with
       | Some main =>
           forall f,
             roots s' !! f
             = if bool_decide (f ∈ files_of s main)
                  && defines_main (tree_of (ParseFile env f FullParse))
               then Some (target_name f) else roots s !! f
       | None => roots s' = roots s
       end.
Proof.
  intros Hok Htrees. rewrite FindMain_run by done. eexists. split; [done|].
  repeat (split; [done|]).
  destruct (packages s !! "main") as [main|].
  - intros f. simpl. apply found_roots_lookup.
  - done.
Qed.

Lemma FindMain_roots_witness :
  exists s',
    FindMain (Demo.env false []) (Demo.scanned Demo.args) = Done tt s'
    /\ roots s' !! "main.v2.go" = Some "main"
    /\ roots s' !! "common.go" = None
    /\ roots s' !! "util.go" = None.
Proof.
  destruct (FindMain_roots (Demo.env false []) (Demo.scanned Demo.args))
    as (s' & Hrun & _ & _ & _ & _ & _ & _ & Hroots).
  - apply (bool_decide_unpack _). vm_compute. exact I.
  - apply (bool_decide_unpack _). vm_compute. exact I.
  - exists s'. split; [exact Hrun|].
    destruct (packages (Demo.scanned Demo.args) !! "main") as [main|] eqn:Hm;
      [|vm_compute in Hm; discriminate Hm].
    vm_compute in Hm. injection Hm as <-.
    rewrite !Hroots. split; [|split]; vm_compute; reflexivity.
Defined.

(** ** Prerequisites in the rules *)

Global Instance dep_item_inj : Inj (=) (=) dep_item.
Proof. intros x y H. by injection H. Qed.

Lemma count_Permutation {A} `{EqDecision A} (x : A) l1 l2 :
  l1 ≡ₚ l2 -> count x l1 = count x l2.
Proof. intros H. unfold count. by rewrite H. Qed.

Lemma count_NoDup_decide {A} `{EqDecision A} (x : A) l :
  NoDup l -> count x l = if decide (x ∈ l) then 1 else 0.
Proof.
  intros Hnd. destruct (decide (x ∈ l)).
  - by apply count_NoDup.
  - by apply count_zero.
Qed.

Lemma if_decide_ext (P Q : Prop) `{Decision P, Decision Q} {A} (a b : A) :
  (P <-> Q) ->
  (if decide P then a else b) = (if decide Q then a else b).
Proof. intros HPQ. destruct (decide P), (decide Q); tauto. Qed.

(** The values of a map that sends every key to itself. *)
Lemma values_keys (m : gmap string string) :
  (forall k v, m !! k = Some v -> v = k) ->
  (map_to_list m).*2 = (map_to_list m).*1.
Proof.
  intros H. apply list_fmap_ext. intros i [k v] Hkv. simpl.
  apply list_elem_of_lookup_2, elem_of_map_to_list in Hkv. by apply H.
Qed.

Lemma NoDup_values (m : gmap string string) :
  (forall k v, m !! k = Some v -> v = k) -> NoDup (map_to_list m).*2.
Proof. intros H. rewrite values_keys by done. apply NoDup_fst_map_to_list. Qed.

Lemma elem_of_values (m : gmap string string) x :
  (forall k v, m !! k = Some v -> v = k) ->
  x ∈ (map_to_list m).*2 <-> is_Some (m !! x).
Proof.
  intros H. rewrite list_elem_of_fmap. split.
  - intros ([k v] & -> & Hkv). apply elem_of_map_to_list in Hkv.
    simpl. pose proof (H _ _ Hkv) as ->. by rewrite Hkv.
  - intros [v Hv]. exists (x, v). pose proof (H _ _ Hv) as ->.
    split; [done|]. by apply elem_of_map_to_list.
Qed.

Lemma registered_spec s x : registered s x = true <-> is_Some (packages s !! x).
Proof.
  unfold registered. apply bool_decide_eq_true.
Qed.

Lemma count_shown_deps env s p x :
  (forall k v, imports_of s p !! k = Some v -> v = k) ->
  count x (shown_deps env s p)
  = if decide (is_Some (imports_of s p !! x)
               /\ (is_Some (packages s !! x) \/ showNeeded env = true))
    then 1 else 0.
Proof.
  intros Hval. unfold shown_deps.
  rewrite count_NoDup_decide by (by apply NoDup_filter, NoDup_values).
  apply if_decide_ext. rewrite list_elem_of_filter, elem_of_values by done.
  rewrite Is_true_true, orb_true_iff, registered_spec. tauto.
Qed.

Lemma count_root_shown_deps env s main x :
  (forall k v, imports_of s main !! k = Some v -> v = k) ->
  count x (root_shown_deps env s main)
  = if decide (is_Some (imports_of s main !! x)
               /\ (is_Some (packages s !! x) \/ showNeeded env = true))
    then 1 else 0.
Proof.
  intros Hval. unfold root_shown_deps. rewrite count_app.
  rewrite (count_NoDup_decide x (filter _ _))
    by (by apply NoDup_filter, NoDup_values).
  assert (count x (if showNeeded env
                   then fresh ∅ (filter (fun x => ¬ registered s x)
                                   (map_to_list (imports_of s main)).*2)
                   else [])
          = if decide (showNeeded env = true
                       /\ is_Some (imports_of s main !! x)
                       /\ ~ is_Some (packages s !! x))
            then 1 else 0) as ->.
  { destruct (showNeeded env).
    - rewrite count_NoDup_decide by apply NoDup_fresh. apply if_decide_ext.
      rewrite elem_of_fresh, list_elem_of_filter, elem_of_values by done.
      rewrite <- registered_spec. unfold done_at. rewrite lookup_empty.
      destruct (registered s x); simpl; intuition (try done).
    - rewrite decide_False by (by intros [? _]). done. }
  rewrite (if_decide_ext (x ∈ filter _ _)
             (is_Some (imports_of s main !! x) /\ is_Some (packages s !! x)))
    by (rewrite list_elem_of_filter, elem_of_values by done;
        rewrite Is_true_true, registered_spec; tauto).
  repeat destruct (decide _) as [?|?]; try done; exfalso; tauto.
Qed.

Lemma count_dep_item_pkg_rule env s np rule x :
  is_pkg_rule env s np rule ->
  count (dep_item x) rule = count x (shown_deps env s np.2).
Proof.
  intros (deps & -> & Hd).
  rewrite count_cons, !count_app, (count_fmap dep_item).
  rewrite decide_False by discriminate.
  rewrite (count_zero _ (file_item <$> _)), (count_zero _ [end_line]).
  - rewrite (count_Permutation _ _ _ Hd). lia.
  - rewrite list_elem_of_singleton. discriminate.
  - rewrite list_elem_of_fmap. intros (? & [=] & _).
Qed.

Lemma count_dep_item_root_rule env s main common f rule x :
  is_root_rule env s main common f rule ->
  count (dep_item x) rule = count x (root_shown_deps env s main).
Proof.
  intros (app & deps & _ & -> & Hd).
  rewrite count_cons, !count_app, (count_fmap dep_item).
  rewrite decide_False by discriminate.
  rewrite (count_zero _ (file_item <$> _)), (count_zero _ [end_line]).
  - rewrite (count_Permutation _ _ _ Hd). lia.
  - rewrite list_elem_of_singleton. discriminate.
  - rewrite list_elem_of_fmap. intros (? & [=] & _).
Qed.

Lemma Forall2_impl_elem {A B} (R R' : A -> B -> Prop) xs ys :
  Forall2 R xs ys ->
  (forall x y, x ∈ xs -> R x y -> R' x y) ->
  Forall2 R' xs ys.
Proof.
  induction 1 as [|x y xs ys HR HF IH]; intros Himp; constructor.
  - apply Himp; [by left|done].
  - apply IH. intros x' y' Hx'. apply Himp. by right.
Qed.

(** X10: when every import map sends each target to itself, as the maps
    filled by [ImportVisitor] do, each rule that [PrintDeps] prints names an
    import target of its package exactly once if a package of that name is
    registered or the run is in show-needed mode, and not at all otherwise.
    This holds for the rules of the packages and for the rule of every
    root. *)
Theorem rules_name_imports_once env s :
  range_ok env -> vec_ok s ->
  (forall name p k v,
     packages s !! name = Some p -> imports_of s p !! k = Some v -> v = k) ->
  exists order prules lines rrules t,
    PrintDeps env s
    = Done tt (emit s (concat prules ++ lines ++ concat rrules) t)
    /\ order ≡ₚ map_to_list (packages s)
    /\ Forall2 (fun np rule =>
         head rule = Some (rule_head np.1)
         /\ forall x,
              count (dep_item x) rule
              = if decide (is_Some (imports_of s np.2 !! x)
                           /\ (is_Some (packages s !! x)
                               \/ showNeeded env = true))
                then 1 else 0)
         (others order) prules
    /\ forall main, packages s !! "main" = Some main ->
         Forall2 (fun f rule =>
           (exists app, roots s !! f = Some app
                        /\ head rule = Some (root_head app f))
           /\ forall x,
                count (dep_item x) rule
                = if decide (is_Some (imports_of s main !! x)
                             /\ (is_Some (packages s !! x)
                                 \/ showNeeded env = true))
                  then 1 else 0)
           (root_files s (files_of s main)) rrules.
Proof.
  intros Hr Hok Hval.
  destruct (PrintDeps_structure env s Hr Hok)
    as (order & prules & lines & rrules & t & Hrun & Hord & HP & HM).
  exists order, prules, lines, rrules, t.
  split; [done|]. split; [done|]. split.
  - apply (Forall2_impl_elem _ _ _ _ HP). intros [name p] rule Hnp Hrule.
    split; [by destruct Hrule as (deps & -> & _)|]. intros x.
    rewrite (count_dep_item_pkg_rule _ _ _ _ _ Hrule). simpl.
    apply count_shown_deps. intros k v. apply (Hval name).
    apply list_elem_of_filter in Hnp as [_ Hnp].
    apply elem_of_map_to_list. by rewrite <- Hord.
  - intros main Hmain. rewrite Hmain in HM. destruct HM as [_ HR].
    apply (Forall2_impl _ _ _ _ HR). intros f rule Hrule. split.
    + destruct Hrule as (app & deps & Happ & -> & _). by exists app.
    + intros x. rewrite (count_dep_item_root_rule _ _ _ _ _ _ _ Hrule).
      apply count_root_shown_deps. intros k v. by apply (Hval "main").
Qed.

Lemma rules_name_imports_once_witness :
  exists d t,
    PrintDeps (Demo.env true Demo.args) (Demo.loaded Demo.args)
    = Done tt (emit (Demo.loaded Demo.args) d t).
Proof.
  destruct (rules_name_imports_once (Demo.env true Demo.args)
              (Demo.loaded Demo.args))
    as (order & prules & lines & rrules & t & Hrun & _).
  - apply forwards_ok.
  - apply (bool_decide_unpack _). vm_compute. exact I.
  - intros name p k v Hp Hk.
    assert (map_Forall (fun _ p =>
              map_Forall (fun k v => v = k)
                (imports_of (Demo.loaded Demo.args) p))
              (packages (Demo.loaded Demo.args))) as H.
    { apply (bool_decide_unpack _). vm_compute. exact I. }
    exact (H name p Hp k v Hk).
  - exists (concat prules ++ lines ++ concat rrules), t. exact Hrun.
Defined.

Lemma dep_item_app_lines s fs x : dep_item x ∉ app_lines s fs.
Proof.
  unfold app_lines. rewrite list_elem_of_bind. intros (f & Hin & _).
  destruct (roots s !! f); [|by apply elem_of_nil in Hin].
  apply list_elem_of_singleton in Hin. discriminate Hin.
Qed.


Lemma pkg_rule_events env s np rule ev :
  is_pkg_rule env s np rule -> ev ∈ rule ->
  deps_event ev /\ forall app, ev <> app_line app.
Proof.
  intros (deps & -> & _).
  rewrite elem_of_cons, !elem_of_app, !list_elem_of_fmap, list_elem_of_singleton.
  intros [->|[(f & -> & _)|[(x & -> & _)| ->]]];
    (split; [constructor|discriminate]).
Qed.

Lemma root_rule_events env s main common f rule ev :
  is_root_rule env s main common f rule -> ev ∈ rule ->
  deps_event ev /\ forall app, ev <> app_line app.
Proof.
  intros (app & deps & _ & -> & _).
  rewrite elem_of_cons, !elem_of_app, !list_elem_of_fmap, list_elem_of_singleton.
  intros [->|[(g & -> & _)|[(x & -> & _)| ->]]];
    (split; [constructor|discriminate]).
Qed.

Lemma app_lines_events s fs ev :
  ev ∈ app_lines s fs ->
  exists app f, f ∈ fs /\ roots s !! f = Some app /\ ev = app_line app.
Proof.
  unfold app_lines. rewrite list_elem_of_bind. intros (f & Hin & Hf).
  destruct (roots s !! f) as [app|] eqn:Happ; [|by apply elem_of_nil in Hin].
  apply list_elem_of_singleton in Hin. by exists app, f.
Qed.

(** What the output of [PrintDeps] is made of, and where its lines
    [app: app.${O}] come from. *)
Lemma rules_events env s order prules lines rrules :
  Forall2 (is_pkg_rule env s) order prules ->
  match packages s !! "main" with
  | Some main =>
      lines = app_lines s (files_of s main)
      /\ Forall2 (is_root_rule env s main (common_files s (files_of s main)))
                 (root_files s (files_of s main)) rrules
  | None => lines = [] /\ rrules = []
  end ->
  forall ev, ev ∈ concat prules ++ lines ++ concat rrules ->
    deps_event ev
    /\ forall app, ev = app_line app ->
         exists f, roots s !! f = Some app
                   /\ root_head app f ∈ concat prules ++ lines ++ concat rrules.
Proof.
  intros HP HM ev. rewrite !elem_of_app. intros [Hev|[Hev|Hev]].
  - destruct (elem_of_concat_Forall2 _ _ _ _ HP Hev)
      as (np & rule & _ & Hrule & Hin).
    destruct (pkg_rule_events _ _ _ _ _ Hrule Hin) as [Hd Hne].
    split; [done|]. intros app ->. by destruct (Hne app).
  - destruct (packages s !! "main") as [main|];
      destruct HM as [-> HR]; [|by apply elem_of_nil in Hev].
    destruct (app_lines_events _ _ _ Hev) as (app & f & Hf & Happ & ->).
    split; [constructor|]. intros app' [= <-]. exists f. split; [done|].
    rewrite !elem_of_app. right; right.
    apply (root_head_in_rules _ _ _ _ _ _ _ _ HR); [|done].
    apply elem_of_root_files. eauto.
  - destruct (packages s !! "main") as [main|];
      destruct HM as [_ HR]; [|subst rrules; by apply elem_of_nil in Hev].
    destruct (elem_of_concat_Forall2 _ _ _ _ HR Hev)
      as (f & rule & _ & Hrule & Hin).
    destruct (root_rule_events _ _ _ _ _ _ _ Hrule Hin) as [Hd Hne].
    split; [done|]. intros app ->. by destruct (Hne app).
Qed.



(** ** The file list of a single package, and target names *)

Lemma fresh_NoDup l : forall d,
  NoDup l -> (forall x, x ∈ l -> done_at d x = false) -> fresh d l = l.
Proof.
  induction l as [|x l IH]; intros d Hnd Hd; [done|].
  apply NoDup_cons in Hnd as [Hx Hnd]. simpl.
  rewrite (Hd x) by (by left). f_equal. apply IH; [done|].
  intros y Hy. rewrite done_at_insert.
  rewrite bool_decide_eq_false_2 by (by intros ->). apply Hd. by right.
Qed.

(** X12: when a single package is registered, [PrintFList] prints its unit
    sequence in sequence order, leaving out the later occurrences of a name
    that is repeated; the order in which maps are enumerated plays no part.
    A sequence without repetitions is printed as it is. *)
Theorem PrintFList_one_package env s name p :
  range_ok env -> vec_ok s ->
  packages s = {[name := p]} ->
  exists L,
    PrintFList env s
    = Done tt (emit s (Print "GOFILES = " :: (file_item <$> L) ++ [end_line])
                 (S (tick s)))
    /\ L = fresh ∅ (files_of s p)
    /\ (NoDup (files_of s p) -> L = files_of s p).
Proof.
  intros Hr Hok Hp. rewrite PrintFList_run by done.
  pose proof (Hr Package (tick s) (packages s)) as Hord.
  rewrite Hp, map_to_list_singleton in Hord.
  apply Permutation_singleton_r in Hord. rewrite <- Hp in Hord.
  rewrite Hord. unfold listed. simpl. rewrite app_nil_r.
  eexists. split; [done|]. split; [done|].
  intros Hnd. by apply fresh_NoDup.
Qed.

Lemma PrintFList_one_package_witness :
  exists p,
    packages (Demo.loaded ["util.go"; "util_test.go"; "util.go"]) !! "util"
    = Some p
    /\ PrintFList (Demo.env false [])
         (Demo.loaded ["util.go"; "util_test.go"; "util.go"])
       = Done tt (emit (Demo.loaded ["util.go"; "util_test.go"; "util.go"])
                    [Print "GOFILES = "; file_item "util.go";
                     file_item "util_test.go"; end_line] 1).
Proof.
  destruct (packages (Demo.loaded ["util.go"; "util_test.go"; "util.go"])
              !! "util") as [p|] eqn:Hp; [|vm_compute in Hp; discriminate Hp].
  exists p. split; [reflexivity|].
  destruct (PrintFList_one_package (Demo.env false [])
              (Demo.loaded ["util.go"; "util_test.go"; "util.go"]) "util" p)
    as (L & Hrun & HL & _).
  - apply forwards_ok.
  - apply (bool_decide_unpack _). vm_compute. exact I.
  - vm_compute in Hp. injection Hp as <-. vm_compute. reflexivity.
  - rewrite Hrun, HL. vm_compute in Hp. injection Hp as <-.
    vm_compute. reflexivity.
Defined.

Lemma Split_head s sep :
  exists p ps,
    strings.Split s sep = p :: ps
    /\ contains sep p = false
    /\ (s = p \/ exists rest, s = p +:+ String sep rest).
Proof.
  induction s as [|c s (p & ps & IH & Hp & Hs)]; simpl.
  - exists EmptyString, []. split; [done|]. split; [done|]. by left.
  - destruct (decide (c = sep)) as [->|Hc].
    + exists EmptyString, (strings.Split s sep). split; [done|].
      split; [done|]. right. by exists s.
    + rewrite IH. exists (String c p), ps. split; [done|]. split.
      * simpl. by rewrite decide_False.
      * destruct Hs as [->|(rest & ->)]; [by left|]. right. by exists rest.
Qed.

(** X13: [addRoot] never indexes [fparts] out of range, and the target name
    it records has no dot and is the file name itself or the part of it in
    front of a dot. The target name is empty exactly when the file name is
    empty or begins with a dot; the entries of the other files are kept. *)
Theorem addRoot_basename filename s :
  exists app s',
    addRoot filename s = Done tt s'
    /\ roots s' !! filename = Some app
    /\ (forall g, g <> filename -> roots s' !! g = roots s !! g)
    /\ contains "."%char app = false
    /\ (filename = app \/ exists rest, filename = app +:+ "." +:+ rest)
    /\ (app = EmptyString <->
        filename = EmptyString \/ exists rest, filename = String "."%char rest).
Proof.
  destruct (Split_head filename "."%char) as (p & ps & HS & Hp & Hf).
  exists p. eexists. unfold addRoot. rewrite HS. simpl.
  split; [done|]. split; [apply lookup_insert_eq|].
  split; [intros g Hg; simpl; by rewrite lookup_insert_ne|].
  split; [done|]. split; [done|]. split.
  - intros ->. destruct Hf as [->|(rest & ->)]; [by left|right]. by exists rest.
  - intros [->|(rest & ->)].
    + simpl in HS. by injection HS as <-.
    + simpl in HS. by injection HS as <-.
Qed.

(** ** Prerequisites and the external list *)

Lemma elem_of_root_shown_deps env s main x :
  x ∈ root_shown_deps env s main ->
  exists k, imports_of s main !! k = Some x.
Proof.
  assert (forall P `{forall y, Decision (P y)},
            x ∈ filter P (map_to_list (imports_of s main)).*2 ->
            exists k, imports_of s main !! k = Some x) as Hval.
  { intros P ? [_ Hx]%list_elem_of_filter.
    apply list_elem_of_fmap in Hx as ([k v] & -> & Hkv).
    exists k. by apply elem_of_map_to_list. }
  unfold root_shown_deps. rewrite elem_of_app. intros [Hx|Hx].
  - by apply Hval in Hx.
  - destruct (showNeeded env); [|by apply elem_of_nil in Hx].
    apply elem_of_fresh in Hx as [Hx _]. by apply Hval in Hx.
Qed.

(** X14: in every mode, each prerequisite [x.${O}] in the output of
    [PrintDeps] is accounted for. The output is made of rule heads, file
    names, import prerequisites, line ends, lines [app: app.${O}] and root
    rule heads. An import prerequisite names a registered package or is on
    the list of external packages that [PrintNeeded] prints from the same
    registry, and the .EXTERNAL line spells such a name as the rules do; the
    prerequisite of a line [app: app.${O}] is the target of the rule of a
    root in the same output. *)
Theorem prerequisites_declared env s :
  range_ok env -> vec_ok s ->
  exists N s1 d t,
    PrintNeeded env ".EXTERNAL: " ".${O}" s = Done tt s1
    /\ stdout s1
       = stdout s ++ Print ".EXTERNAL: "
                       :: (needed_item ".${O}" <$> N) ++ [Print LF]
    /\ PrintDeps env s1 = Done tt (emit s1 d t)
    /\ (forall ev, ev ∈ d -> deps_event ev)
    /\ (forall x, dep_item x ∈ d -> is_Some (packages s !! x) \/ x ∈ N)
    /\ (forall app, app_line app ∈ d ->
          exists f, roots s !! f = Some app /\ root_head app f ∈ d)
    /\ forall x, render (needed_item ".${O}" x) = render (dep_item x).
Proof.
  intros Hr Hok. rewrite PrintNeeded_run.
  set (N := fresh ∅ _). set (s1 := emit s _ _).
  assert (vec_ok s1) as Hok1 by done.
  destruct (PrintDeps_structure env s1 Hr Hok1)
    as (order & prules & lines & rrules & t & Hrun & Hord & HP & HM).
  exists N, s1, (concat prules ++ lines ++ concat rrules), t.
  split; [done|]. split; [unfold s1; by rewrite stdout_emit|]. split; [done|].
  split; [intros ev Hev; by apply (rules_events _ _ _ _ _ _ HP HM)|].
  split; [|split; [|done]];
    [|intros app Happ; by apply (rules_events _ _ _ _ _ _ HP HM _ Happ)].
  intros x Hx.
  assert (exists name p k,
            packages s !! name = Some p /\ imports_of s p !! k = Some x)
    as Himp.
  { rewrite !elem_of_app in Hx. destruct Hx as [Hx|[Hx|Hx]].
    - destruct (elem_of_concat_Forall2 _ _ _ _ HP Hx)
        as ([name p] & rule & Hnp & Hrule & Hin).
      apply count_pos in Hin.
      rewrite (count_dep_item_pkg_rule _ _ _ _ _ Hrule) in Hin.
      apply count_pos_inv, elem_of_shown_deps in Hin as [[k Hk] _].
      exists name, p, k. split; [|done].
      apply list_elem_of_filter in Hnp as [_ Hnp]. rewrite Hord in Hnp.
      by apply elem_of_map_to_list in Hnp.
    - change (packages s1) with (packages s) in HM.
      destruct (packages s !! "main") as [main|].
      + destruct HM as [-> _]. by apply dep_item_app_lines in Hx.
      + destruct HM as [-> _]. by apply elem_of_nil in Hx.
    - change (packages s1) with (packages s) in HM.
      destruct (packages s !! "main") as [main|] eqn:Hmain.
      + destruct HM as [_ HR].
        destruct (elem_of_concat_Forall2 _ _ _ _ HR Hx)
          as (f & rule & _ & Hrule & Hin).
        apply count_pos in Hin.
        rewrite (count_dep_item_root_rule _ _ _ _ _ _ _ Hrule) in Hin.
        apply count_pos_inv, elem_of_root_shown_deps in Hin as [k Hk].
        by exists "main", main, k.
      + destruct HM as [_ ->]. by apply elem_of_nil in Hx. }
  destruct (packages s !! x) as [q|] eqn:Hq; [left; by eexists|right].
  unfold N. by rewrite elem_of_needed.
Qed.

Lemma prerequisites_declared_witness :
  exists (N : list string) s1 d t,
    PrintNeeded (Demo.env true Demo.args) ".EXTERNAL: " ".${O}"
      (Demo.loaded Demo.args) = Done tt s1
    /\ PrintDeps (Demo.env true Demo.args) s1 = Done tt (emit s1 d t)
    /\ (forall x, dep_item x ∈ d ->
          is_Some (packages (Demo.loaded Demo.args) !! x) \/ x ∈ N)
    /\ forall app, app_line app ∈ d ->
         exists f, roots (Demo.loaded Demo.args) !! f = Some app
                   /\ root_head app f ∈ d.
Proof.
  destruct (prerequisites_declared (Demo.env true Demo.args)
              (Demo.loaded Demo.args))
    as (N & s1 & d & t & Hn & _ & Hd & _ & Hx & Happ & _).
  - apply forwards_ok.
  - apply (bool_decide_unpack _). vm_compute. exact I.
  - exists N, s1, d, t. split; [exact Hn|]. split; [exact Hd|].
    split; [exact Hx | exact Happ].
Defined.
